(** * email_attachments_downloader: the [mails] module

    A shallow embedding of [app/mails.py]: the credential loader
    [_get_credentials], [get_account], the message finder [fetch_messages]
    and the attachment saver [download_attachments], and of the script
    [app/app.py] that calls them, together with the properties of the
    specification that are about them and further properties of the code.

    Conventions of the embedding:
    - a Python [str] is a [string]; the text is taken to be ASCII, so
      [str.lower] and [str.strip] act on the ASCII letters and the ASCII
      white space only;
    - [bytes] is [list byte];
    - a raised exception is a value of [exn], and a function that may raise
      returns a [result];
    - a local variable that may be unbound when it is read is an [option],
      and reading it while [None] raises [UnboundLocalError];
    - the file system is a finite map from paths to nodes; a file has one
      name: two spellings of the path of one file are not modelled;
    - a file is written in one step, which is refused when the file is
      opened or completes; reading a file that is there gives its text;
    - [os.path.join], the refusal of the operating system to open a file
      and the mail library are parameters of the sections that use them. *)

From Stdlib Require Import Strings.Ascii Strings.String Lists.List Bool.Bool Strings.Byte Lia.
From Stdlib Require Import Decimal DecimalString.
From stdpp Require Import base option list strings gmap.

Set Default Proof Using "Type".

(** ** Exceptions and results *)

Inductive exn : Type :=
  | KeyError (key : string)
  | IndexError
  | UnboundLocalError (var : string)
  | ValueError (msg : string)
  | FileNotFoundError (msg : string)
  | FolderNotFoundError (msg : string)
  | OSError (msg : string)
  | RemoteError (msg : string).

Inductive result (A : Type) : Type :=
  | Ok (a : A)
  | Raise (e : exn).
Arguments Ok {A} a.
Arguments Raise {A} e.

#[global] Instance result_ret : MRet result := @Ok.
#[global] Instance result_bind : MBind result :=
  fun A B f m => match m with Ok a => f a | Raise e => Raise e end.

Definition is_Ok {A} (r : result A) : bool :=
  match r with Ok _ => true | Raise _ => false end.

(** ** The [str] methods the module calls *)

Module Str.

Definition colon : ascii := ":"%char.
Definition LF : ascii := "010"%char.
Definition CR : ascii := "013"%char.

(** [c.isupper()] and [c.lower()] on ASCII. *)
Definition is_upper (c : ascii) : bool :=
  (65 <=? nat_of_ascii c) && (nat_of_ascii c <=? 90).

Definition lower_char (c : ascii) : ascii :=
  if is_upper c then ascii_of_nat (nat_of_ascii c + 32) else c.

(** [s.lower()] *)
Fixpoint lower (s : string) : string :=
  match s with
  | EmptyString => EmptyString
  | String c s' => String (lower_char c) (lower s')
  end.

(** [c.isspace()] on ASCII: TAB, LF, VT, FF, CR, FS, GS, RS, US, SPACE. *)
Definition is_space (c : ascii) : bool :=
  let n := nat_of_ascii c in
  ((9 <=? n) && (n <=? 13)) || ((28 <=? n) && (n <=? 32)).

(** [s.lstrip()], [s.rstrip()], [s.strip()] *)
Fixpoint lstrip (s : string) : string :=
  match s with
  | EmptyString => EmptyString
  | String c s' => if is_space c then lstrip s' else s
  end.

Fixpoint rstrip (s : string) : string :=
  match s with
  | EmptyString => EmptyString
  | String c s' =>
      match rstrip s' with
      | EmptyString => if is_space c then EmptyString else String c EmptyString
      | r => String c r
      end
  end.

Definition strip (s : string) : string := rstrip (lstrip s).

(** [c in s] for a one-character [c]. *)
Fixpoint contains (c : ascii) (s : string) : bool :=
  match s with
  | EmptyString => false
  | String d s' => Ascii.eqb d c || contains c s'
  end.

(** [s.split(sep)] for a one-character [sep]: every occurrence splits;
    the result is never empty. *)
Fixpoint split (sep : ascii) (s : string) : list string :=
  match s with
  | EmptyString => [EmptyString]
  | String c s' =>
      if Ascii.eqb c sep then EmptyString :: split sep s'
      else match split sep s' with
           | t :: ts => String c t :: ts
           | [] => [String c EmptyString]
           end
  end.

(** [s.endswith(suffix)] *)
Fixpoint endswith (s suffix : string) : bool :=
  String.eqb s suffix ||
  match s with
  | EmptyString => false
  | String _ s' => endswith s' suffix
  end.

(** [s.startswith(prefix)] *)
Definition startswith (s prefix : string) : bool := String.prefix prefix s.

(** Text-mode reading with universal newlines: CR LF and a lone CR are
    read as LF. *)
Fixpoint universal_newlines (s : string) : string :=
  match s with
  | EmptyString => EmptyString
  | String c s' =>
      if Ascii.eqb c CR then
        String LF (match s' with
                   | String d s'' =>
                       if Ascii.eqb d LF then universal_newlines s''
                       else universal_newlines s'
                   | EmptyString => EmptyString
                   end)
      else String c (universal_newlines s')
  end.

(** The lines of a text, each with its line end (as [readlines] gives
    them). *)
Fixpoint keepends (s : string) : list string :=
  match s with
  | EmptyString => []
  | String c s' =>
      if Ascii.eqb c LF then String c EmptyString :: keepends s'
      else match keepends s' with
           | l :: ls => String c l :: ls
           | [] => [String c EmptyString]
           end
  end.

End Str.

(** [tokens[i]] *)
Definition getitem_list {A} (l : list A) (i : nat) : result A :=
  match l !! i with
  | Some x => Ok x
  | None => Raise IndexError
  end.

(** ** The file system *)

(** What a path names: a regular file with its bytes, a directory, or
    something else that exists (a device, a pipe). *)
Inductive node : Type :=
  | File (content : list byte)
  | Dir
  | Special.

(** [os.path.exists] and [os.path.isfile] *)
Definition exists_ (files : gmap string node) (path : string) : bool :=
  match files !! path with Some _ => true | None => false end.

Definition isfile (files : gmap string node) (path : string) : bool :=
  match files !! path with Some (File _) => true | _ => false end.

(** [open(path, 'r', encoding = "utf-8")] followed by [readlines()], once
    [isfile(path)] has been checked. *)
Definition file_lines (content : list byte) : list string :=
  Str.keepends (Str.universal_newlines (string_of_list_byte content)).

Definition readlines (files : gmap string node) (path : string)
  : result (list string) :=
  match files !! path with
  | Some (File content) => Ok (file_lines content)
  | _ => Raise (FileNotFoundError path)
  end.

(** ** Python values held by the [params] dictionary *)

Inductive pyval : Type :=
  | PNone
  | PStr (s : string)
  | PIdentity (primary_smtp_address : string).

(** [v is None] *)
Definition is_none (v : pyval) : bool :=
  match v with PNone => true | _ => false end.

(** [exchangelib.OAuth2Credentials(client_id, client_secret, tenant_id,
    identity)]: the constructor stores its four arguments. *)
Record OAuth2Credentials : Type := {
  client_id : pyval;
  client_secret : pyval;
  tenant_id : pyval;
  identity : pyval
}.

(** [d[k]] on a dictionary *)
Definition getitem_dict {V} (d : gmap string V) (k : string) : result V :=
  match d !! k with
  | Some v => Ok v
  | None => Raise (KeyError k)
  end.

(** ** The credential loader *)

(** The state of the loop of [_get_credentials]: the dictionary [params]
    and the local [key], which is unbound until a recognized label has been
    seen. *)
Abbreviation loader_state := (gmap string pyval * option string)%type.

(** Lines 105-110: the [if]/[elif] chain; it has no [else], so [key] keeps
    its value from an earlier line when the label is none of the three. *)
Definition select_key (param_name : string) (key : option string)
  : option string :=
  if String.eqb param_name "Client ID" then Some "client_id"
  else if String.eqb param_name "Client Secret" then Some "client_secret"
  else if String.eqb param_name "Tenant ID" then Some "tenant_id"
  else key.

(** Lines 105-112: choose the key and store the value. *)
Definition store_param (param_name param_value : string) (st : loader_state)
  : result loader_state :=
  let '(params, key) := st in
  match select_key param_name key with
  | Some k => Ok (<[k := PStr param_value]> params, Some k)
  | None => Raise (UnboundLocalError "key")
  end.

(** Lines 98-112: the body of the loop, for one line. *)
Definition credentials_line (line : string) (st : loader_state)
  : result loader_state :=
  if negb (Str.contains Str.colon line) then Ok st
  else
    let tokens := Str.split Str.colon line in
    t0 ← getitem_list tokens 0;
    let param_name := Str.strip t0 in
    t1 ← getitem_list tokens 1;
    let param_value := Str.strip t1 in
    store_param param_name param_value st.

(** Line 96: [for line in lines]. *)
Fixpoint credentials_loop (lines : list string) (st : loader_state)
  : result loader_state :=
  match lines with
  | [] => Ok st
  | line :: rest => st' ← credentials_line line st; credentials_loop rest st'
  end.

(** Lines 89-94: the initial dictionary. *)
Definition initial_params (acc_name : string) : gmap string pyval :=
  <["client_id" := PNone]>
    (<["client_secret" := PNone]>
       (<["tenant_id" := PNone]>
          (<["identity" := PIdentity acc_name]> ∅))).

(** Lines 114-132: the three checks and the construction of the record. *)
Definition verify_params (params : gmap string pyval)
  : result OAuth2Credentials :=
  v ← getitem_dict params "client_id";
  if is_none v then Raise (ValueError "Parameter 'client_id' not found!")
  else
    v ← getitem_dict params "client_secret";
    if is_none v then Raise (ValueError "Parameter 'client_secret' not found!")
    else
      v ← getitem_dict params "tenant_id";
      if is_none v then Raise (ValueError "Parameter 'tenant_id' not found!")
      else
        a ← getitem_dict params "client_id";
        b ← getitem_dict params "client_secret";
        c ← getitem_dict params "tenant_id";
        d ← getitem_dict params "identity";
        Ok {| client_id := a; client_secret := b; tenant_id := c;
              identity := d |}.

Section Credentials.

(** [os.path.join] of two components. *)
Variable join : string → string → string.

(** Lines 80-81: where the credentials of an account are kept. *)
Definition cred_path_of (appdata acc_name : string) : string :=
  join (join appdata "bia") (Str.lower acc_name +:+ ".token.email.dat").

Definition _get_credentials (environ : gmap string string)
    (files : gmap string node) (acc_name : string)
  : result OAuth2Credentials :=
  appdata ← getitem_dict environ "APPDATA";
  let cred_path := cred_path_of appdata acc_name in
  if negb (isfile files cred_path) then
    Raise (FileNotFoundError ("Credentials file not found: " +:+ cred_path))
  else
    lines ← readlines files cred_path;
    st ← credentials_loop lines (initial_params acc_name, None);
    verify_params st.1.

End Credentials.

(** ** Messages and attachments *)

Record Attachment : Type := {
  name : string;
  content : list byte
}.

(** The fields of a message that [fetch_messages] asks for. *)
Record Message : Type := {
  subject : string;
  sender : string;
  attachments : list Attachment;
  message_id : string
}.

(** ** The world the attachment saver acts on *)

(** What the saver does besides changing files: it prints, and it opens
    files for writing. *)
Inductive event : Type :=
  | EvPrint (text : string)
  | EvOpenWrite (path : string).

Record world : Type := World {
  w_files : gmap string node;
  w_events : list event
}.

Definition log (e : event) (w : world) : world :=
  {| w_files := w_files w; w_events := w_events w ++ [e] |}.

(** Computations that read and change the world and may raise; what was
    done before an exception stays done. *)
Definition M (A : Type) : Type := world → world * result A.

#[global] Instance M_ret : MRet M := fun A a w => (w, Ok a).
#[global] Instance M_bind : MBind M := fun A B f m w =>
  match m w with
  | (w', Ok a) => f a w'
  | (w', Raise e) => (w', Raise e)
  end.

Definition raise {A} (e : exn) : M A := fun w => (w, Raise e).
Definition print (text : string) : M unit :=
  fun w => (log (EvPrint text) w, Ok tt).
Definition path_exists (path : string) : M bool :=
  fun w => (w, Ok (exists_ (w_files w) path)).
Definition path_isfile (path : string) : M bool :=
  fun w => (w, Ok (isfile (w_files w) path)).

Section Saver.

Variable join : string → string → string.

(** When the operating system refuses to open a path for writing (no
    permission, a missing parent directory, ...), and with which error. *)
Variable open_refused : gmap string node → string → option exn.

(** Lines 256-257: [open(file_path, 'wb')], [write], and the close at the
    end of the [with] block. A directory cannot be opened; a regular file
    is truncated and a missing one created; what is written to a device
    is not kept. *)
Definition write_file (path : string) (data : list byte) : M unit :=
  fun w =>
    let w1 := log (EvOpenWrite path) w in
    match open_refused (w_files w) path with
    | Some e => (w1, Raise e)
    | None =>
        match w_files w !! path with
        | Some Dir => (w1, Raise (OSError ("Is a directory: " +:+ path)))
        | Some Special => (w1, Ok tt)
        | Some (File _) | None =>
            ({| w_files := <[path := File data]> (w_files w);
                w_events := w_events w1 |}, Ok tt)
        end
    end.

(** Line 245: the extension filter. *)
Definition ext_accepts (ext : option string) (file_path : string) : bool :=
  match ext with
  | None => true
  | Some e => Str.endswith (Str.lower file_path) e
  end.

(** Lines 243-262: the body of the loop, for one attachment; the result
    is the list [file_paths] after it. *)
Definition save_attachment (dst_folder : string) (ext : option string)
    (overwrite : bool) (file_paths : list string) (att : Attachment)
  : M (list string) :=
  let file_path := join dst_folder (name att) in
  if negb (ext_accepts ext file_path) then mret file_paths
  else
    there ← path_isfile file_path;
    skip ← (if (there : bool) then
              if negb overwrite then
                _ ← print "WARNING: File already exists. Attachment won't be saved.";
                mret true
              else
                _ ← print "WARNING: File already exists. Data will be ovewritten.";
                mret false
            else mret false);
    if (skip : bool) then mret file_paths
    else
      _ ← write_file file_path (content att);
      written ← path_isfile file_path;
      if negb (written : bool) then
        raise (FileNotFoundError
                 ("Error writing attachment data to file: " +:+ file_path))
      else mret (file_paths ++ [file_path]).

(** Line 241: [for att in msg.attachments]. *)
Fixpoint save_loop (dst_folder : string) (ext : option string)
    (overwrite : bool) (atts : list Attachment) (file_paths : list string)
  : M (list string) :=
  match atts with
  | [] => mret file_paths
  | att :: rest =>
      file_paths' ← save_attachment dst_folder ext overwrite file_paths att;
      save_loop dst_folder ext overwrite rest file_paths'
  end.

Definition download_attachments (msg : Message) (dst_folder : string)
    (ext : option string) (overwrite : bool) : M (list string) :=
  there ← path_exists dst_folder;
  if negb (there : bool) then
    raise (FolderNotFoundError ("Folder does not exist: " +:+ dst_folder))
  else save_loop dst_folder ext overwrite (attachments msg) [].

End Saver.

(** ** The message finder *)

(** A local variable that is assigned on some paths only. *)
Definition read_local {A} (var : string) (v : option A) : result A :=
  match v with
  | Some a => Ok a
  | None => Raise (UnboundLocalError var)
  end.

Section Finder.

(** The types of the mail library: time zones, [datetime], [EWSDateTime],
    and the inbox folder of an account. *)
Variables Timezone DateTime EWSDateTime Folder : Type.

(** [EWSDateTime.from_datetime] and [EWSDateTime.astimezone] *)
Variable from_datetime : DateTime → EWSDateTime.
Variable astimezone : EWSDateTime → Timezone → EWSDateTime.

(** [acc.default_timezone] and [acc.inbox]; resolving the inbox asks the
    server and may fail. *)
Record Account : Type := {
  default_timezone : Timezone;
  inbox : result Folder
}.

(** [inbox.walk()]: the folders below the inbox; [inbox.all()]: the items
    of the inbox itself. *)
Inductive scope : Type :=
  | Walk (f : Folder)
  | All (f : Folder).

(** [.filter(datetime_received__range = ..., sender = ...).only(...)] *)
Record query : Type := {
  datetime_received__range : EWSDateTime * EWSDateTime;
  q_sender : string;
  q_only : list string
}.

(** [list(emails)]: the server evaluates the query; its errors are
    passed on as they are. *)
Variable evaluate : scope → query → result (list Message).

Definition fetch_messages (acc : Account) (email_from : string)
    (from_date : option DateTime) (search_subfolders : bool)
    (now : DateTime) : result (list Message) :=
  (* lines 193-196: [timezone], [start] and [end] are assigned in the
     branch only *)
  let '(timezone, start, end_) :=
    match from_date with
    | Some d =>
        let timezone := default_timezone acc in
        (Some timezone,
         Some (astimezone (from_datetime d) timezone),
         Some (astimezone (from_datetime now) timezone))
    | None => (None, None, None)
    end in
  (* lines 198-201 *)
  box ← inbox acc;
  let folders := if search_subfolders then Walk box else All box in
  (* lines 203-208 *)
  s ← read_local "start" start;
  e ← read_local "end" end_;
  evaluate folders
    {| datetime_received__range := (s, e);
       q_sender := email_from;
       q_only := ["subject"; "sender"; "attachments"; "message_id"] |}.

End Finder.

Arguments default_timezone {Timezone Folder} _.
Arguments inbox {Timezone Folder} _.
Arguments Walk {Folder} _.
Arguments All {Folder} _.
Arguments datetime_received__range {EWSDateTime} _.
Arguments q_sender {EWSDateTime} _.
Arguments q_only {EWSDateTime} _.

(** ** The query of the mail library *)

Section Library.

Variables EWSDateTime Folder : Type.

(** [a <= b] on [EWSDateTime]: the order of the instants. *)
Variable time_le : EWSDateTime → EWSDateTime → bool.

(** An item of the store: a message and when it was received. *)
Record Item : Type := {
  item_message : Message;
  item_received : EWSDateTime
}.

(** What the server holds in the folders asked for, in its own order; the
    request may fail. *)
Variable listing : scope Folder → result (list Item).

(** The comparison of the server between the sender of a message and the
    address asked for. *)
Variable sender_is : Message → string → bool.

(** [field__range = (a, b)]: the library has no range operator of its own
    and turns the lookup into [field__gte = a] and [field__lte = b], both
    ends included. *)
Definition in_range (range : EWSDateTime * EWSDateTime) (t : EWSDateTime)
  : bool :=
  time_le range.1 t && time_le t range.2.

(** [list(folders.filter(datetime_received__range = ..., sender = ...)
    .only(...))]: the messages of the listing that pass both conditions. *)
Definition queryset_list (folders : scope Folder) (q : query EWSDateTime)
  : result (list Message) :=
  items ← listing folders;
  mret (map item_message
          (List.filter
             (λ it, in_range (datetime_received__range q) (item_received it)
                    && sender_is (item_message it) (q_sender q))
             items)).

End Library.

Arguments item_message {EWSDateTime} _.
Arguments item_received {EWSDateTime} _.

(** ** [get_account] and the script [app.py] *)

(** [sep.join(items)] *)
Fixpoint str_join (sep : string) (items : list string) : string :=
  match items with
  | [] => EmptyString
  | [x] => x
  | x :: rest => x +:+ sep +:+ str_join sep rest
  end.

(** [str(n)] for a natural number, as an f-string formats it. *)
Definition str_nat (n : nat) : string :=
  NilZero.string_of_uint (Nat.to_uint n).

(** [str(exc)]: the message an exception was raised with; for [KeyError]
    the key in quotes, for the two built-in errors the text of CPython 3.11
    and later. *)
Definition str_exn (e : exn) : string :=
  match e with
  | KeyError k => "'" +:+ k +:+ "'"
  | IndexError => "list index out of range"
  | UnboundLocalError v =>
      "cannot access local variable '" +:+ v +:+
      "' where it is not associated with a value"
  | ValueError m | FileNotFoundError m | FolderNotFoundError m
  | OSError m | RemoteError m => m
  end.

(** [print(text, end = " ")]: the event keeps the text; how the line ends
    is not recorded. *)
Definition print_end (text end_ : string) : M unit := print text.

(** A computation that does not touch the world. *)
Definition lift {A} (r : result A) : M A := fun w => (w, r).

(** The constructor calls of the mail library that [get_account] makes,
    kept as data. *)
Record Build : Type := { major_version : nat; minor_version : nat }.

Record Version : Type := { build : Build }.

Inductive auth_kind : Type := OAUTH2.

Inductive access_kind : Type := IMPERSONATION.

Record Configuration : Type := {
  cfg_credentials : OAuth2Credentials;
  cfg_server : string;
  cfg_auth_type : option auth_kind;
  cfg_version : option Version
}.

Record account_args : Type := {
  arg_primary_smtp_address : string;
  arg_config : Configuration;
  arg_autodiscover : bool;
  arg_access_type : access_kind
}.

(** The folder the script saves to, and the extension it asks for. *)
Definition app_dst_folder : string := "C:\bia\AttDownloader\temp\pdf".
Definition app_ext : string := ".pdf".

Section App.

Variables Timezone DateTime EWSDateTime Folder : Type.
Variable from_datetime : DateTime → EWSDateTime.
Variable astimezone : EWSDateTime → Timezone → EWSDateTime.
Variable evaluate : scope Folder → query EWSDateTime → result (list Message).
Variable join : string → string → string.
Variable open_refused : gmap string node → string → option exn.

(** [exchangelib.Account(...)]: the constructor of the library; it may
    refuse its arguments. *)
Variable account_init : account_args → result (Account Timezone Folder).

(** [datetime(year, month, day)] *)
Variable datetime : nat → nat → nat → DateTime.

(** Lines 134-172 of [mails.py]. The first [Configuration] is replaced by
    the second one before it is used. *)
Definition get_account (environ : gmap string string)
    (files : gmap string node) (mailbox name x_server : string)
  : result (Account Timezone Folder) :=
  let build := {| major_version := 15; minor_version := 20 |} in
  creds ← _get_credentials join environ files name;
  let cfg := {| cfg_credentials := creds; cfg_server := x_server;
                cfg_auth_type := Some OAUTH2;
                cfg_version := Some {| build := build |} |} in
  let cfg := {| cfg_credentials := creds; cfg_server := x_server;
                cfg_auth_type := None; cfg_version := None |} in
  account_init {| arg_primary_smtp_address := mailbox; arg_config := cfg;
                  arg_autodiscover := false;
                  arg_access_type := IMPERSONATION |}.

(** Lines 36-48 of [app.py]: the body of the loop, for message [i] of
    [n_total]. Whatever the saver raises is printed and the loop goes on. *)
Definition process_message (n_total i : nat) (msg : Message) : M unit :=
  fun w =>
    let '(w1, _) :=
      print_end ("Processig message " +:+ str_nat i +:+ " of " +:+
                 str_nat n_total +:+ " ...") " " w in
    match download_attachments join open_refused msg app_dst_folder
            (Some app_ext) false w1 with
    | (w2, Raise exc) => print (str_exn exc) w2
    | (w2, Ok pdf_path) =>
        if negb (Nat.eqb (length pdf_path) 0) then
          print ("Attachment(s) saved to: " +:+ str_join "; " pdf_path) w2
        else (w2, Ok tt)
    end.

(** Line 34: [for i, msg in enumerate(messages, start = 1)]. *)
Fixpoint process_messages (n_total i : nat) (messages : list Message)
  : M unit :=
  match messages with
  | [] => mret tt
  | msg :: rest =>
      _ ← process_message n_total i msg;
      process_messages n_total (S i) rest
  end.

(** The script: the value is the status given to [sys.exit]; an exception
    that nothing catches ends the script as [Raise]. *)
Definition main (environ : gmap string string) (now : DateTime) : M nat :=
  _ ← print "Connecting to account...";
  account ← (fun w =>
    lift (get_account environ (w_files w) "EMEA-GSS-AR@ledvance.com"
            "lbs.robot@ledvance.com" "outlook.office365.com") w);
  _ ← print "Collecting messages...";
  messages ← lift (fetch_messages _ _ _ _ from_datetime astimezone evaluate
                     account "elab_apm_de@obi.de"
                     (Some (datetime 2023 7 23)) false now);
  let n_total := length messages in
  if Nat.eqb n_total 0 then
    _ ← print "ERROR: No message found using the search criteria!";
    mret 0
  else
    _ ← process_messages n_total 1 messages;
    mret 0.

End App.

(** ** Notions of the specification *)

(** The text of a line before its first colon, and the text after it. *)
Fixpoint before_colon (s : string) : string :=
  match s with
  | EmptyString => EmptyString
  | String c s' =>
      if Ascii.eqb c Str.colon then EmptyString else String c (before_colon s')
  end.

Fixpoint after_colon (s : string) : string :=
  match s with
  | EmptyString => EmptyString
  | String c s' => if Ascii.eqb c Str.colon then s' else after_colon s'
  end.

(** The label of a line: what is before the first colon, trimmed. *)
Definition label_of (line : string) : string :=
  Str.strip (before_colon line).

(** The value of a line as the specification words it: everything after
    the first colon up to the end of the line, trimmed. *)
Definition value_as_specified (line : string) : string :=
  Str.strip (after_colon line).

(** One line as the specification words it: split on the first colon,
    stored under its label. *)
Definition line_as_specified (line : string) (st : loader_state)
  : result loader_state :=
  if Str.contains Str.colon line then
    store_param (label_of line) (value_as_specified line) st
  else Ok st.

(** The value of a line as the loader takes it: the text between the first
    colon and the second one (or the end of the line), trimmed. *)
Definition value_of (line : string) : string :=
  Str.strip (before_colon (after_colon line)).

(** The field a label stands for, if it is one of the three. *)
Definition field_of_label (label : string) : option string :=
  select_key label None.

(** The field and the value a line gives, if its label is recognized. *)
Definition line_field (line : string) : option (string * string) :=
  if Str.contains Str.colon line then
    match field_of_label (label_of line) with
    | Some k => Some (k, value_of line)
    | None => None
    end
  else None.

(** A line with a colon and a label that is none of the three. *)
Definition unrecognized (line : string) : bool :=
  Str.contains Str.colon line &&
  match field_of_label (label_of line) with Some _ => false | None => true end.

(** A well-formed credentials file has no such line: every line either has
    no colon or carries one of the three labels. *)
Definition well_formed (lines : list string) : Prop :=
  Forall (λ line, unrecognized line = false) lines.

(** The value the last line for field [k] gives. *)
Fixpoint last_value (k : string) (lines : list string) : option string :=
  match lines with
  | [] => None
  | line :: rest =>
      match last_value k rest with
      | Some v => Some v
      | None =>
          match line_field line with
          | Some (k', v) => if String.eqb k' k then Some v else None
          | None => None
          end
      end
  end.

(** A field that the scan left at [None]. *)
Definition unset (params : gmap string pyval) (k : string) : bool :=
  match params !! k with Some PNone => true | _ => false end.

(** The first of the three fields that is still [None], in the order of
    the checks. *)
Definition first_unset (params : gmap string pyval) : option string :=
  if unset params "client_id" then Some "client_id"
  else if unset params "client_secret" then Some "client_secret"
  else if unset params "tenant_id" then Some "tenant_id"
  else None.

(** A field of a record that is a non-empty string (for the identity: a
    non-empty address). *)
Definition nonempty (v : pyval) : bool :=
  match v with
  | PStr s | PIdentity s => negb (String.eqb s "")
  | PNone => false
  end.

Definition all_fields_nonempty (c : OAuth2Credentials) : bool :=
  nonempty (client_id c) && nonempty (client_secret c) &&
  nonempty (tenant_id c) && nonempty (identity c).

(** The candidate path of an attachment. *)
Definition candidate (join : string → string → string) (dst_folder : string)
    (att : Attachment) : string :=
  join dst_folder (name att).

(** Matching an extension without regard to case, of the name and of the
    extension alike. *)
Definition matches_ignoring_case (ext file_path : string) : bool :=
  Str.endswith (Str.lower file_path) (Str.lower ext).

(** The three fields a line can set. *)
Definition is_field (k : string) : Prop :=
  k = "client_id" ∨ k = "client_secret" ∨ k = "tenant_id".

(** What holds of the loop state all along: the three fields are [None] or
    a string, the identity is the one of the account, and [key], once
    bound, names one of the three fields. *)
Record loader_inv (acc_name : string) (st : loader_state) : Prop := {
  inv_fields : ∀ k, is_field k →
    st.1 !! k = Some PNone ∨ ∃ v, st.1 !! k = Some (PStr v);
  inv_identity : st.1 !! "identity" = Some (PIdentity acc_name);
  inv_key : ∀ k, st.2 = Some k → is_field k
}.

(** The error of a missing field. *)
Definition missing (field : string) : exn :=
  ValueError ("Parameter '" +:+ field +:+ "' not found!").

(** A string with an upper-case letter in it. *)
Fixpoint has_upper (s : string) : bool :=
  match s with
  | EmptyString => false
  | String c s' => Str.is_upper c || has_upper s'
  end.

(** The first line with a colon carries none of the three labels. *)
Fixpoint scan_starts_badly (lines : list string) : bool :=
  match lines with
  | [] => false
  | line :: rest =>
      if Str.contains Str.colon line then unrecognized line
      else scan_starts_badly rest
  end.

(** A value without white space at its ends and without a colon. *)
Definition clean (v : string) : Prop :=
  Str.strip v = v ∧ Str.contains Str.colon v = false.

Definition clean_params (params : gmap string pyval) : Prop :=
  ∀ k v, params !! k = Some (PStr v) → clean v.

(** The record with another identity. *)
Definition with_identity (acc_name : string) (c : OAuth2Credentials)
  : OAuth2Credentials :=
  {| client_id := client_id c; client_secret := client_secret c;
     tenant_id := tenant_id c; identity := PIdentity acc_name |}.

(** The value a line gives to field [k], if it names that field. *)
Definition value_for (k : string) (line : string) : option string :=
  match line_field line with
  | Some (k', v) => if String.eqb k' k then Some v else None
  | None => None
  end.

(** The values the lines give to field [k], in the order of the lines. *)
Definition field_values (k : string) (lines : list string) : list string :=
  omap (value_for k) lines.

(** What a call of the saver may have done to the file at path [q]:
    nothing, or put there the bytes of an attachment of [atts] whose
    candidate path is [q] and passes the filter, where there was nothing
    before or, when overwriting, a regular file. *)
Definition untouched_or_saved (join : string → string → string)
    (dst_folder : string) (ext : option string) (overwrite : bool)
    (atts : list Attachment) (before after : gmap string node)
    (q : string) : Prop :=
  after !! q = before !! q ∨
  ((∃ a, a ∈ atts ∧ candidate join dst_folder a = q ∧
         ext_accepts ext q = true ∧ after !! q = Some (File (content a))) ∧
   (before !! q = None ∨
    (overwrite = true ∧ ∃ old, before !! q = Some (File old)))).

(** A path that holds the bytes of one of the attachments that goes
    there. *)
Definition holds_attachment (join : string → string → string)
    (dst_folder : string) (atts : list Attachment)
    (files : gmap string node) (p : string) : Prop :=
  ∃ a, a ∈ atts ∧ candidate join dst_folder a = p ∧
       files !! p = Some (File (content a)).

(** What a run of the script may have done to the file at path [q]:
    nothing, or created it, with the bytes of an attachment, at a candidate
    path of the folder of the script that ends in [.pdf] when case is
    ignored. *)
Definition kept_or_created (join : string → string → string)
    (before after : gmap string node) (q : string) : Prop :=
  after !! q = before !! q ∨
  (before !! q = None ∧ matches_ignoring_case app_ext q = true ∧
   ∃ a, candidate join app_dst_folder a = q ∧
        after !! q = Some (File (content a))).

(** The window of the specification, open at its right end: from [start]
    on and before [stop]. *)
Definition in_window_as_specified {T} (time_le : T → T → bool)
    (start stop t : T) : bool :=
  time_le start t && negb (time_le stop t).

(** The paths that were opened for writing, in the order of the opens. *)
Definition opened (w : world) : list string :=
  omap (λ e, match e with EvOpenWrite p => Some p | EvPrint _ => None end)
       (w_events w).

(** ** Fixtures for the examples *)

(** A path module for the examples: components joined by a slash, and an
    absolute second component replaces the first, in the manner of
    [posixpath.join]. *)
Definition slash_join (a b : string) : string :=
  if Str.startswith b "/" then b
  else if String.eqb a "" || Str.endswith a "/" then a +:+ b
  else a +:+ "/" +:+ b.

(** An operating system that refuses nothing (directories apart). *)
Definition permissive (_ : gmap string node) (_ : string) : option exn := None.

Definition bytes_of (s : string) : list byte := list_byte_of_string s.

Definition test_environ : gmap string string := {[ "APPDATA" := "/cfg" ]}.

(** The credentials file of the account [robot@x.org] with a given text. *)
Definition cred_file (text : string) : gmap string node :=
  {[ "/cfg/bia/robot@x.org.token.email.dat" := File (bytes_of text) ]}.

Definition attachment (n c : string) : Attachment :=
  {| name := n; content := bytes_of c |}.

Definition message_with (atts : list Attachment) : Message :=
  {| subject := "Invoice"; sender := "sender@example.org";
     attachments := atts; message_id := "<1@example.org>" |}.

(** A text from its lines, each ended by a line feed. *)
Fixpoint text_of (lines : list string) : string :=
  match lines with
  | [] => EmptyString
  | l :: ls => l +:+ String Str.LF (text_of ls)
  end.

(** An empty destination folder [/out]. *)
Definition empty_out : world :=
  {| w_files := {[ "/out" := Dir ]}; w_events := [] |}.

(** The folder [/out] with a file [a.pdf] in it. *)
Definition out_with_a : world :=
  {| w_files := <["/out/a.pdf" := File (bytes_of "old")]> {[ "/out" := Dir ]};
     w_events := [] |}.

(** The folder [/out] with a file [b.docx] in it. *)
Definition out_with_doc : world :=
  {| w_files := <["/out/b.docx" := File (bytes_of "old")]> {[ "/out" := Dir ]};
     w_events := [] |}.

(** A store for the examples: times are numbers, the address of a sender
    is compared as it is written, and the inbox holds two messages of the
    same sender, received at the times 50 and 100. *)
Definition mail_from (address id : string) : Message :=
  {| subject := "Invoice"; sender := address; attachments := [];
     message_id := id |}.

Definition two_items (_ : scope unit) : result (list (Item nat)) :=
  Ok [ {| item_message := mail_from "sender@example.org" "<1>";
          item_received := 100 |};
       {| item_message := mail_from "sender@example.org" "<2>";
          item_received := 50 |} ].

Definition same_address (m : Message) (address : string) : bool :=
  String.eqb (sender m) address.

Definition nat_account : Account unit unit :=
  {| default_timezone := tt; inbox := Ok tt |}.

(** The folder [/out] with a device in it. *)
Definition out_with_device : world :=
  {| w_files := <["/out/con.pdf" := Special]> {[ "/out" := Dir ]};
     w_events := [] |}.

(** A mail library for the examples: one time zone, one folder, an account
    constructor that accepts everything and a server that answers every
    query with the same messages. *)
Definition test_account : Account unit unit :=
  {| default_timezone := tt; inbox := Ok tt |}.

Definition test_account_init (_ : account_args) : result (Account unit unit) :=
  Ok test_account.

Definition test_server (messages : list Message) (_ : scope unit)
    (_ : query unit) : result (list Message) :=
  Ok messages.

(** The machine of the script: the credentials of the robot account, the
    folder the script saves to, and one file already in it. *)
Definition app_files : gmap string node :=
  <["/cfg/bia/lbs.robot@ledvance.com.token.email.dat" :=
      File (bytes_of (text_of ["Client ID: id"; "Client Secret: sec";
                               "Tenant ID: ten"]))]>
    (<[slash_join app_dst_folder "old.pdf" := File (bytes_of "old")]>
       {[ app_dst_folder := Dir ]}).

Definition app_world : world := {| w_files := app_files; w_events := [] |}.

(** The script on the machine of the examples, the server answering with
    the given messages. *)
Definition test_main (messages : list Message) : M nat :=
  main unit unit unit unit (λ _, tt) (λ _ _, tt) (test_server messages)
    slash_join permissive test_account_init (λ _ _ _, tt) test_environ tt.

(** * Properties *)

(** ** The string methods on examples *)

Example split_at_every_colon :
  Str.split Str.colon "Client Secret: ab:cd" = ["Client Secret"; " ab"; "cd"].
Proof. reflexivity. Qed.

Example split_without_colon : Str.split Str.colon "no label" = ["no label"].
Proof. reflexivity. Qed.

Example strip_both_ends :
  Str.strip (" ab cd " +:+ String Str.CR (String Str.LF "")) = "ab cd".
Proof. reflexivity. Qed.

Example lines_keep_their_ends :
  file_lines (bytes_of ("a: b" +:+ String Str.CR (String Str.LF "c")))
  = ["a: b" +:+ String Str.LF ""; "c"].
Proof. reflexivity. Qed.

Example lower_then_endswith :
  Str.endswith (Str.lower "/out/a.PDF") ".pdf" = true ∧
  Str.endswith (Str.lower "/out/a.PDF") ".PDF" = false.
Proof. split; reflexivity. Qed.

Example slash_join_example :
  slash_join "/out" "a.pdf" = "/out/a.pdf" ∧
  slash_join (slash_join "/cfg" "bia") "x.dat" = "/cfg/bia/x.dat".
Proof. split; reflexivity. Qed.

(** ** Splitting a line *)

Lemma before_colon_no_colon (s : string) :
  Str.contains Str.colon (before_colon s) = false.
Proof.
  induction s as [|c s IH]; simpl; [done|].
  destruct (Ascii.eqb c Str.colon) eqn:E; simpl; [done|].
  by rewrite E.
Qed.

(** [before_colon] and [after_colon] cut a line at its first colon. *)
Lemma cut_at_first_colon (s : string) :
  Str.contains Str.colon s = true →
  s = before_colon s +:+ String Str.colon (after_colon s).
Proof.
  induction s as [|c s IH]; simpl; [done|].
  destruct (Ascii.eqb c Str.colon) eqn:E; simpl.
  - intros _. apply Ascii.eqb_eq in E. by subst.
  - intros H.
    change (String c s =
            String c (before_colon s +:+ String Str.colon (after_colon s))).
    f_equal. by apply IH.
Qed.

Lemma no_colon_before (s : string) :
  Str.contains Str.colon s = false → before_colon s = s.
Proof.
  induction s as [|c s IH]; simpl; [done|].
  destruct (Ascii.eqb c Str.colon); simpl; [done|].
  intros H. by rewrite IH.
Qed.

(** [split] gives the text before the first colon, then the pieces of the
    rest. *)
Lemma split_colon (s : string) :
  Str.split Str.colon s =
  before_colon s ::
    (if Str.contains Str.colon s then Str.split Str.colon (after_colon s)
     else []).
Proof.
  induction s as [|c s IH]; simpl; [done|].
  destruct (Ascii.eqb c Str.colon); simpl; [done|].
  by rewrite IH.
Qed.

Lemma split_tokens (line : string) :
  Str.contains Str.colon line = true →
  ∃ more, Str.split Str.colon line =
          before_colon line :: before_colon (after_colon line) :: more.
Proof.
  intros H. rewrite split_colon, H, (split_colon (after_colon line)). eauto.
Qed.

(** What the body of the loop does with one line. *)
Lemma credentials_line_eq (line : string) (st : loader_state) :
  credentials_line line st =
  if Str.contains Str.colon line
  then store_param (label_of line) (value_of line) st
  else Ok st.
Proof.
  unfold credentials_line.
  destruct (Str.contains Str.colon line) eqn:H; simpl; [|done].
  destruct (split_tokens line H) as [more ->]. done.
Qed.

(** ** The loop of the loader *)

Lemma select_key_cases (param_name : string) (key : option string) :
  (param_name = "Client ID" ∧ select_key param_name key = Some "client_id") ∨
  (param_name = "Client Secret" ∧
   select_key param_name key = Some "client_secret") ∨
  (param_name = "Tenant ID" ∧ select_key param_name key = Some "tenant_id") ∨
  (field_of_label param_name = None ∧ select_key param_name key = key).
Proof.
  unfold field_of_label, select_key.
  destruct (String.eqb param_name "Client ID") eqn:E1;
    [apply String.eqb_eq in E1; by left|].
  destruct (String.eqb param_name "Client Secret") eqn:E2;
    [apply String.eqb_eq in E2; by right; left|].
  destruct (String.eqb param_name "Tenant ID") eqn:E3;
    [apply String.eqb_eq in E3; by right; right; left|].
  by right; right; right.
Qed.

Lemma select_key_is_field (param_name : string) (key : option string) (k : string) :
  (∀ k', key = Some k' → is_field k') →
  select_key param_name key = Some k → is_field k.
Proof.
  intros Hkey.
  destruct (select_key_cases param_name key)
    as [[_ ->]|[[_ ->]|[[_ ->]|[_ ->]]]]; unfold is_field.
  - intros [= <-]. auto.
  - intros [= <-]. auto.
  - intros [= <-]. auto.
  - apply Hkey.
Qed.

Lemma is_field_not_identity (k : string) : is_field k → k ≠ "identity".
Proof. intros [-> | [-> | ->]]; done. Qed.

Lemma initial_inv (acc_name : string) :
  loader_inv acc_name (initial_params acc_name, None).
Proof.
  split; simpl.
  - intros k [-> | [-> | ->]]; left; reflexivity.
  - reflexivity.
  - done.
Qed.

Lemma store_param_inv (acc_name n v : string) (st st' : loader_state) :
  loader_inv acc_name st → store_param n v st = Ok st' →
  loader_inv acc_name st'.
Proof.
  destruct st as [params key]. intros [Hf Hi Hk]. unfold store_param.
  destruct (select_key n key) as [k|] eqn:E; [|done].
  intros [= <-]. simpl in *.
  assert (is_field k) as Hfk by eauto using select_key_is_field.
  split; simpl.
  - intros k' Hk'. destruct (decide (k = k')) as [->|Hne].
    + right. exists v. apply lookup_insert_eq.
    + rewrite lookup_insert_ne by done. by apply Hf.
  - rewrite lookup_insert_ne; [done|]. by apply is_field_not_identity.
  - by intros k' [= <-].
Qed.

Lemma credentials_line_inv (acc_name line : string) (st st' : loader_state) :
  loader_inv acc_name st → credentials_line line st = Ok st' →
  loader_inv acc_name st'.
Proof.
  rewrite credentials_line_eq.
  destruct (Str.contains Str.colon line).
  - apply store_param_inv.
  - by intros ? [= <-].
Qed.

Lemma credentials_loop_inv (acc_name : string) (lines : list string)
    (st st' : loader_state) :
  loader_inv acc_name st → credentials_loop lines st = Ok st' →
  loader_inv acc_name st'.
Proof.
  revert st. induction lines as [|line rest IH]; intros st Hinv; simpl.
  - by intros [= <-].
  - destruct (credentials_line line st) as [st1|e] eqn:E; simpl; [|done].
    apply IH. by eapply credentials_line_inv.
Qed.

(** ** The checks after the loop *)

Lemma unset_false_str (acc_name : string) (st : loader_state) (k : string) :
  loader_inv acc_name st → is_field k → unset st.1 k = false →
  ∃ v, st.1 !! k = Some (PStr v).
Proof.
  intros Hinv Hk. unfold unset.
  destruct (inv_fields _ _ Hinv k Hk) as [->|[v ->]]; [done|eauto].
Qed.

Lemma unset_true_none (params : gmap string pyval) (k : string) :
  unset params k = true → params !! k = Some PNone.
Proof.
  unfold unset. destruct (params !! k) as [[]|]; done.
Qed.

(** The checks report the first unset field; when none is unset the record
    holds the three strings and the identity of the account. *)
Lemma verify_params_eq (acc_name : string) (st : loader_state) :
  loader_inv acc_name st →
  match first_unset st.1 with
  | Some field => verify_params st.1 = Raise (missing field)
  | None =>
      ∃ a b c,
        st.1 !! "client_id" = Some (PStr a) ∧
        st.1 !! "client_secret" = Some (PStr b) ∧
        st.1 !! "tenant_id" = Some (PStr c) ∧
        verify_params st.1 =
        Ok {| client_id := PStr a; client_secret := PStr b;
              tenant_id := PStr c; identity := PIdentity acc_name |}
  end.
Proof.
  intros Hinv. unfold first_unset, verify_params, getitem_dict.
  destruct (unset st.1 "client_id") eqn:U1.
  { by rewrite (unset_true_none _ _ U1). }
  destruct (unset_false_str acc_name st "client_id" Hinv) as [a Ha];
    [unfold is_field; auto | done |].
  rewrite Ha. simpl.
  destruct (unset st.1 "client_secret") eqn:U2.
  { by rewrite (unset_true_none _ _ U2). }
  destruct (unset_false_str acc_name st "client_secret" Hinv) as [b Hb];
    [unfold is_field; auto | done |].
  rewrite Hb. simpl.
  destruct (unset st.1 "tenant_id") eqn:U3.
  { by rewrite (unset_true_none _ _ U3). }
  destruct (unset_false_str acc_name st "tenant_id" Hinv) as [c Hc];
    [unfold is_field; auto | done |].
  rewrite Hc. simpl.
  rewrite (inv_identity _ _ Hinv). simpl.
  exists a, b, c. done.
Qed.

(** ** The loader as a whole *)

Section LoaderFacts.

Variable join : string → string → string.

Lemma get_credentials_eq (environ : gmap string string)
    (files : gmap string node) (acc_name appdata : string)
    (content : list byte) :
  environ !! "APPDATA" = Some appdata →
  files !! cred_path_of join appdata acc_name = Some (File content) →
  _get_credentials join environ files acc_name =
  (st ← credentials_loop (file_lines content) (initial_params acc_name, None);
   verify_params st.1).
Proof.
  intros He Hf. unfold _get_credentials, getitem_dict, isfile, readlines.
  rewrite He. simpl. rewrite Hf. done.
Qed.

Lemma get_credentials_Ok (environ : gmap string string)
    (files : gmap string node) (acc_name : string) (c : OAuth2Credentials) :
  _get_credentials join environ files acc_name = Ok c →
  ∃ appdata content st,
    environ !! "APPDATA" = Some appdata ∧
    files !! cred_path_of join appdata acc_name = Some (File content) ∧
    credentials_loop (file_lines content) (initial_params acc_name, None)
      = Ok st ∧
    verify_params st.1 = Ok c.
Proof.
  unfold _get_credentials, getitem_dict, isfile, readlines.
  destruct (environ !! "APPDATA") as [appdata|]; simpl; [|done].
  destruct (files !! cred_path_of join appdata acc_name)
    as [[content| |]|] eqn:Hf; simpl; try done.
  destruct (credentials_loop _ _) as [st|e] eqn:Hl; simpl; [|done].
  intros Hv. by exists appdata, content, st.
Qed.

End LoaderFacts.

(** ** Lines with an unrecognized label *)

Lemma select_key_recognized (param_name : string) (key : option string)
    (k : string) :
  field_of_label param_name = Some k → select_key param_name key = Some k.
Proof.
  unfold field_of_label, select_key.
  destruct (String.eqb param_name "Client ID"); [done|].
  destruct (String.eqb param_name "Client Secret"); [done|].
  destruct (String.eqb param_name "Tenant ID"); done.
Qed.

Lemma select_key_unrecognized (param_name : string) (key : option string) :
  field_of_label param_name = None → select_key param_name key = key.
Proof.
  unfold field_of_label, select_key.
  destruct (String.eqb param_name "Client ID"); [done|].
  destruct (String.eqb param_name "Client Secret"); [done|].
  destruct (String.eqb param_name "Tenant ID"); done.
Qed.

(** A line with a colon and an unrecognized label is not skipped: its
    value goes to the field of the last recognized label, and when there
    has been none the loop stops on the unbound [key]. *)
Lemma unrecognized_line_step (line : string) (params : gmap string pyval)
    (key : option string) :
  unrecognized line = true →
  credentials_line line (params, key) =
  match key with
  | Some k => Ok (<[k := PStr (value_of line)]> params, Some k)
  | None => Raise (UnboundLocalError "key")
  end.
Proof.
  unfold unrecognized. rewrite credentials_line_eq.
  destruct (Str.contains Str.colon line); simpl; [|done].
  destruct (field_of_label (label_of line)) eqn:E; [done|]. intros _.
  unfold store_param. by rewrite (select_key_unrecognized _ _ E).
Qed.

(** A line of a well-formed file sets the field of its label, or nothing. *)
Lemma well_formed_line_step (line : string) (params : gmap string pyval)
    (key : option string) :
  unrecognized line = false →
  credentials_line line (params, key) =
  Ok match line_field line with
     | Some (k, v) => (<[k := PStr v]> params, Some k)
     | None => (params, key)
     end.
Proof.
  unfold unrecognized, line_field. rewrite credentials_line_eq.
  destruct (Str.contains Str.colon line); simpl; [|done].
  destruct (field_of_label (label_of line)) as [k|] eqn:E; [|done]. intros _.
  unfold store_param. by rewrite (select_key_recognized _ _ _ E).
Qed.

Lemma credentials_loop_app (l1 l2 : list string) (st : loader_state) :
  credentials_loop (l1 ++ l2) st =
  (st' ← credentials_loop l1 st; credentials_loop l2 st').
Proof.
  revert st. induction l1 as [|line l1 IH]; intros st; simpl; [done|].
  destruct (credentials_line line st) as [st1|e]; simpl; [apply IH|done].
Qed.

(** Over well-formed lines the loop ends normally, and each field holds
    the value of the last line that names it. *)
Lemma credentials_loop_well_formed (lines : list string) :
  well_formed lines →
  ∀ (params : gmap string pyval) (key : option string),
    ∃ params' key',
      credentials_loop lines (params, key) = Ok (params', key') ∧
      ∀ k, params' !! k =
           match last_value k lines with
           | Some v => Some (PStr v)
           | None => params !! k
           end.
Proof.
  induction 1 as [|line rest Hline Hrest IH]; intros params key; simpl.
  - by exists params, key.
  - rewrite (well_formed_line_step _ _ _ Hline). simpl.
    destruct (line_field line) as [[k' v]|] eqn:E.
    + destruct (IH (<[k' := PStr v]> params) (Some k'))
        as (params' & key' & -> & Hlook).
      exists params', key'. split; [done|]. intros k. rewrite Hlook.
      destruct (last_value k rest); [done|].
      destruct (String.eqb k' k) eqn:Ek.
      * apply String.eqb_eq in Ek. subst. apply lookup_insert_eq.
      * apply String.eqb_neq in Ek. by apply lookup_insert_ne.
    + destruct (IH params key) as (params' & key' & -> & Hlook).
      exists params', key'. split; [done|]. intros k. rewrite Hlook.
      by destruct (last_value k rest).
Qed.

(** ** The claims about the credential loader *)

(** C3, as the code has it. For every line and every state of the loop: a
    line without a colon leaves the state as it is and raises nothing; a
    line with a colon is stored under its label, the trimmed text before
    the first colon, with as value the trimmed text between the first colon
    and the second one. Only when there is no second colon is that the whole
    rest of the line: what follows a second colon is dropped. *)
Theorem credentials_line_takes_second_token (line : string) (st : loader_state) :
  credentials_line line st =
    (if Str.contains Str.colon line
     then store_param (label_of line) (value_of line) st
     else Ok st) ∧
  value_of line =
    (if Str.contains Str.colon (after_colon line)
     then Str.strip (before_colon (after_colon line))
     else value_as_specified line).
Proof.
  split; [apply credentials_line_eq|].
  unfold value_of, value_as_specified.
  destruct (Str.contains Str.colon (after_colon line)) eqn:E; [done|].
  by rewrite (no_colon_before _ E).
Qed.

(** C3, as it is stated, fails: of the line [Client Secret: ab:cd] the
    specification would load [ab:cd], and the loader stores [ab]. *)
Lemma value_with_colon_is_cut :
  let line := "Client Secret: ab:cd" +:+ String Str.LF "" in
  let st := (initial_params "robot@x.org", None) in
  value_as_specified line = "ab:cd" ∧
  credentials_line line st =
    Ok (<["client_secret" := PStr "ab"]> (initial_params "robot@x.org"),
        Some "client_secret") ∧
  credentials_line line st ≠ line_as_specified line st.
Proof.
  split; [reflexivity|]. split; [reflexivity|].
  intros H. vm_compute in H. discriminate H.
Qed.

(** C2 on the code: a line whose label is none of the three is not ignored.
    After the three recognized lines, a line [Comment: x] replaces the
    tenant id; before any recognized line, it stops the loader on the
    unbound local [key]. *)
Theorem unrecognized_label_not_ignored :
  let load text :=
    _get_credentials slash_join test_environ (cred_file (text_of text))
      "robot@x.org" in
  load ["Client ID: id"; "Client Secret: sec"; "Tenant ID: ten"] =
    Ok {| client_id := PStr "id"; client_secret := PStr "sec";
          tenant_id := PStr "ten"; identity := PIdentity "robot@x.org" |} ∧
  load ["Client ID: id"; "Client Secret: sec"; "Tenant ID: ten"; "Comment: x"] =
    Ok {| client_id := PStr "id"; client_secret := PStr "sec";
          tenant_id := PStr "x"; identity := PIdentity "robot@x.org" |} ∧
  load ["Comment: x"; "Client ID: id"; "Client Secret: sec"; "Tenant ID: ten"] =
    Raise (UnboundLocalError "key").
Proof. repeat split; vm_compute; reflexivity. Qed.

(** The labels are compared as they are written: another case is another
    label. *)
Lemma labels_case_sensitive :
  field_of_label "Client ID" = Some "client_id" ∧
  field_of_label "Client Secret" = Some "client_secret" ∧
  field_of_label "Tenant ID" = Some "tenant_id" ∧
  field_of_label "client id" = None ∧
  field_of_label "CLIENT SECRET" = None ∧
  field_of_label "Tenant Id" = None.
Proof. repeat split. Qed.




(** C6. When the credentials file exists and the scan of its lines ends
    with one or more of the three fields unset, the loader fails with the
    error that names the first unset field in the order client_id,
    client_secret, tenant_id, and with that error only. *)
Theorem missing_parameter_first (join : string → string → string)
    (environ : gmap string string) (files : gmap string node)
    (acc_name appdata : string) (content : list byte) (st : loader_state)
    (field : string) :
  environ !! "APPDATA" = Some appdata →
  files !! cred_path_of join appdata acc_name = Some (File content) →
  credentials_loop (file_lines content) (initial_params acc_name, None)
    = Ok st →
  first_unset st.1 = Some field →
  _get_credentials join environ files acc_name =
    Raise (ValueError ("Parameter '" +:+ field +:+ "' not found!")).
Proof.
  intros He Hf Hloop Hfirst.
  rewrite (get_credentials_eq join _ _ _ _ _ He Hf), Hloop. simpl.
  pose proof (credentials_loop_inv acc_name _ _ _
                (initial_inv acc_name) Hloop) as Hinv.
  pose proof (verify_params_eq acc_name st Hinv) as Hv.
  by rewrite Hfirst in Hv.
Qed.

Lemma missing_parameter_first_witness :
  _get_credentials slash_join test_environ
    (cred_file (text_of ["Tenant ID: ten"; "Client ID: id"])) "Robot@X.org" =
  Raise (ValueError "Parameter 'client_secret' not found!").
Proof.
  apply (missing_parameter_first slash_join test_environ
           (cred_file (text_of ["Tenant ID: ten"; "Client ID: id"]))
           "Robot@X.org" "/cfg"
           (bytes_of (text_of ["Tenant ID: ten"; "Client ID: id"]))
           (<["client_id" := PStr "id"]>
              (<["tenant_id" := PStr "ten"]> (initial_params "Robot@X.org")),
            Some "client_id")
           "client_secret"); vm_compute; reflexivity.
Defined.

(** C9. For a well-formed credentials file (every line has no colon or
    carries one of the three labels) in which each of the three labels
    occurs, found under the lower-cased account name, the loader succeeds;
    the record holds for each field the value of the last line that names
    it, and as identity the account name as it was given. *)
Theorem well_formed_file_loads (join : string → string → string)
    (environ : gmap string string) (files : gmap string node)
    (acc_name appdata : string) (content : list byte) (a b t : string) :
  environ !! "APPDATA" = Some appdata →
  files !! join (join appdata "bia")
             (Str.lower acc_name +:+ ".token.email.dat")
    = Some (File content) →
  well_formed (file_lines content) →
  last_value "client_id" (file_lines content) = Some a →
  last_value "client_secret" (file_lines content) = Some b →
  last_value "tenant_id" (file_lines content) = Some t →
  _get_credentials join environ files acc_name =
    Ok {| client_id := PStr a; client_secret := PStr b;
          tenant_id := PStr t; identity := PIdentity acc_name |}.
Proof.
  intros He Hf Hwf Ha Hb Ht.
  rewrite (get_credentials_eq join _ _ _ appdata content He Hf).
  destruct (credentials_loop_well_formed _ Hwf (initial_params acc_name) None)
    as (params' & key' & Hloop & Hlook).
  rewrite Hloop. simpl.
  pose proof (credentials_loop_inv acc_name _ _ _
                (initial_inv acc_name) Hloop) as Hinv.
  pose proof (verify_params_eq acc_name _ Hinv) as Hv. simpl in Hv.
  pose proof (Hlook "client_id") as La. rewrite Ha in La.
  pose proof (Hlook "client_secret") as Lb. rewrite Hb in Lb.
  pose proof (Hlook "tenant_id") as Lt. rewrite Ht in Lt.
  unfold first_unset, unset in Hv. rewrite La, Lb, Lt in Hv.
  destruct Hv as (a' & b' & t' & [= <-] & [= <-] & [= <-] & Hv). exact Hv.
Qed.

Lemma well_formed_file_loads_witness :
  _get_credentials slash_join test_environ
    (cred_file (text_of ["Tenant ID: ten"; ""; "Client Secret: sec";
                         "no colon here"; "Client ID: id"]))
    "Robot@X.org" =
  Ok {| client_id := PStr "id"; client_secret := PStr "sec";
        tenant_id := PStr "ten"; identity := PIdentity "Robot@X.org" |}.
Proof.
  apply (well_formed_file_loads slash_join test_environ _ "Robot@X.org" "/cfg"
           (bytes_of (text_of ["Tenant ID: ten"; ""; "Client Secret: sec";
                               "no colon here"; "Client ID: id"])));
    try (vm_compute; reflexivity).
  vm_compute. repeat constructor.
Defined.

(** C10 on the code. Of two lines with the label [Client ID] the second one
    gives the value; but when a line with an unrecognized label follows,
    its value replaces that of the last occurrence, through the key that
    the label dispatch leaves as it was. *)
Theorem later_line_beats_last_occurrence :
  let load text :=
    _get_credentials slash_join test_environ (cred_file (text_of text))
      "robot@x.org" in
  load ["Client ID: first"; "Client ID: second"; "Client Secret: sec";
        "Tenant ID: ten"] =
    Ok {| client_id := PStr "second"; client_secret := PStr "sec";
          tenant_id := PStr "ten"; identity := PIdentity "robot@x.org" |} ∧
  load ["Client ID: first"; "Client ID: second"; "Note: x";
        "Client Secret: sec"; "Tenant ID: ten"] =
    Ok {| client_id := PStr "x"; client_secret := PStr "sec";
          tenant_id := PStr "ten"; identity := PIdentity "robot@x.org" |}.
Proof. split; vm_compute; reflexivity. Qed.

(** When a line names a field and no later line names it again, the field
    holds the value of that line once the loop is over, whatever earlier
    lines gave it, provided every later line has no colon or carries one
    of the three labels. *)
Theorem last_occurrence_wins (pre post : list string) (line : string)
    (st0 st : loader_state) (k v : string) :
  credentials_loop pre st0 = Ok st →
  line_field line = Some (k, v) →
  well_formed post →
  last_value k post = None →
  ∃ st', credentials_loop (pre ++ line :: post) st0 = Ok st' ∧
         st'.1 !! k = Some (PStr v).
Proof.
  intros Hpre Hline Hpost Hlast.
  rewrite credentials_loop_app, Hpre. simpl.
  assert (unrecognized line = false) as Hrec.
  { unfold unrecognized. unfold line_field in Hline.
    destruct (Str.contains Str.colon line); [|done].
    by destruct (field_of_label (label_of line)). }
  destruct st as [params key].
  rewrite (well_formed_line_step _ _ _ Hrec), Hline. simpl.
  destruct (credentials_loop_well_formed _ Hpost (<[k := PStr v]> params) (Some k))
    as (params' & key' & Hloop & Hlook).
  exists (params', key'). split; [done|]. simpl.
  rewrite Hlook, Hlast. apply lookup_insert_eq.
Qed.

Lemma last_occurrence_wins_witness :
  ∃ st', credentials_loop
           (["Client ID: first"; "Client Secret: sec"] ++
            "Client ID: second" :: ["Tenant ID: ten"])
           (initial_params "robot@x.org", None) = Ok st' ∧
         st'.1 !! "client_id" = Some (PStr "second").
Proof.
  apply (last_occurrence_wins ["Client ID: first"; "Client Secret: sec"]
           ["Tenant ID: ten"] "Client ID: second"
           (initial_params "robot@x.org", None)
           (<["client_secret" := PStr "sec"]>
              (<["client_id" := PStr "first"]> (initial_params "robot@x.org")),
            Some "client_secret")).
  - vm_compute. reflexivity.
  - vm_compute. reflexivity.
  - repeat constructor.
  - vm_compute. reflexivity.
Defined.

(** ** The attachment saver, one attachment *)

Section SaverFacts.

Variable join : string → string → string.
Variable open_refused : gmap string node → string → option exn.

Lemma isfile_insert_file (files : gmap string node) (p : string)
    (data : list byte) :
  isfile (<[p := File data]> files) p = true.
Proof. unfold isfile. by rewrite lookup_insert_eq. Qed.

(** Writing either fails and changes no file, or succeeds on a device and
    changes no file, or leaves the data in a regular file at the path. *)
Lemma write_file_cases (p : string) (data : list byte) (w w' : world)
    (r : result unit) :
  write_file open_refused p data w = (w', r) →
  w_events w' = w_events w ++ [EvOpenWrite p] ∧
  ((w_files w' = w_files w ∧ (r = Ok tt → isfile (w_files w') p = false)) ∨
   (w_files w' = <[p := File data]> (w_files w) ∧ r = Ok tt)).
Proof.
  unfold write_file.
  destruct (open_refused (w_files w) p) as [e|].
  { intros [= <- <-]. split; [done|]. left. split; done. }
  destruct (w_files w !! p) as [[old| |]|] eqn:E; intros [= <- <-]; simpl;
    (split; [done|]).
  - right. done.
  - left. split; done.
  - left. split; [done|]. intros _. unfold isfile. by rewrite E.
  - right. done.
Qed.

(** The three ways the body of the loop can end for one attachment:
    skipped, written, or failed. Files change in the second only. *)
Lemma save_attachment_cases (dst_folder : string) (ext : option string)
    (overwrite : bool) (file_paths : list string) (att : Attachment)
    (w w' : world) (r : result (list string)) :
  save_attachment join open_refused dst_folder ext overwrite file_paths att w
    = (w', r) →
  let p := join dst_folder (name att) in
  (w_files w' = w_files w ∧ r = Ok file_paths ∧
   (ext_accepts ext p = false ∨
    (isfile (w_files w) p = true ∧ overwrite = false))) ∨
  (w_files w' = <[p := File (content att)]> (w_files w) ∧
   r = Ok (file_paths ++ [p]) ∧ ext_accepts ext p = true ∧
   (isfile (w_files w) p = true → overwrite = true)) ∨
  (w_files w' = w_files w ∧ ∃ e, r = Raise e).
Proof.
  unfold save_attachment. intros H.
  set (p := join dst_folder (name att)) in *.
  destruct (ext_accepts ext p) eqn:Hext; simpl in H.
  2:{ injection H as <- <-. left. auto. }
  unfold mbind, M_bind, path_isfile in H. simpl in H.
  destruct (isfile (w_files w) p) eqn:Hfile.
  - destruct overwrite; simpl in H.
    + destruct (write_file open_refused p (content att) _) as [w1 r1] eqn:Hw.
      apply write_file_cases in Hw as [_ Hw]. simpl in Hw.
      destruct r1 as [[]|e].
      * destruct Hw as [[Hsame Hno]|[Hnew _]].
        -- rewrite (Hno eq_refl) in H. simpl in H. injection H as <- <-.
           right; right. eauto.
        -- rewrite Hnew, isfile_insert_file in H. simpl in H.
           injection H as <- <-. right; left. auto.
      * injection H as <- <-. right; right.
        destruct Hw as [[Hsame _]|[_ ?]]; [eauto|done].
    + injection H as <- <-. left. auto.
  - simpl in H.
    destruct (write_file open_refused p (content att) w) as [w1 r1] eqn:Hw.
    apply write_file_cases in Hw as [_ Hw].
    destruct r1 as [[]|e].
    + destruct Hw as [[Hsame Hno]|[Hnew _]].
      * rewrite (Hno eq_refl) in H. simpl in H. injection H as <- <-.
        right; right. eauto.
      * rewrite Hnew, isfile_insert_file in H. simpl in H.
        injection H as <- <-. right; left. split; [done|].
        split; [done|]. split; [done|]. done.
    + injection H as <- <-. right; right.
      destruct Hw as [[Hsame _]|[_ ?]]; [eauto|done].
Qed.

(** ** The loop over the attachments *)

Lemma save_loop_app (dst_folder : string) (ext : option string)
    (overwrite : bool) (l1 l2 : list Attachment) (file_paths : list string)
    (w : world) :
  save_loop join open_refused dst_folder ext overwrite (l1 ++ l2) file_paths w =
  match save_loop join open_refused dst_folder ext overwrite l1 file_paths w with
  | (w1, Ok paths1) =>
      save_loop join open_refused dst_folder ext overwrite l2 paths1 w1
  | (w1, Raise e) => (w1, Raise e)
  end.
Proof.
  revert file_paths w. induction l1 as [|a l1 IH]; intros file_paths w; simpl.
  - done.
  - unfold mbind, M_bind.
    destruct (save_attachment _ _ _ _ _ _ _ _) as [w1 [paths1|e]]; [|done].
    apply IH.
Qed.

(** A path that is the candidate of none of the attachments is not
    touched. *)
Lemma save_loop_frame (dst_folder : string) (ext : option string)
    (overwrite : bool) (atts : list Attachment) (q : string) :
  Forall (λ b, candidate join dst_folder b ≠ q) atts →
  ∀ file_paths w w' r,
    save_loop join open_refused dst_folder ext overwrite atts file_paths w
      = (w', r) →
    w_files w' !! q = w_files w !! q.
Proof.
  induction 1 as [|a atts Ha _ IH]; intros file_paths w w' r; simpl.
  - by intros [= <- <-].
  - unfold mbind, M_bind.
    destruct (save_attachment _ _ _ _ _ _ _ _) as [w1 r1] eqn:Hstep.
    apply save_attachment_cases in Hstep.
    assert (w_files w1 !! q = w_files w !! q) as Hq.
    { destruct Hstep as [(-> & _)|[(-> & _)|(-> & _)]]; [done| |done].
      by apply lookup_insert_ne. }
    destruct r1 as [paths1|e].
    + intros Hrest. rewrite <- Hq. by eapply IH.
    + by intros [= <- <-].
Qed.

(** A regular file stays a regular file. *)
Lemma save_loop_isfile (dst_folder : string) (ext : option string)
    (overwrite : bool) (atts : list Attachment) (q : string) :
  ∀ file_paths w w' r,
    save_loop join open_refused dst_folder ext overwrite atts file_paths w
      = (w', r) →
    isfile (w_files w) q = true → isfile (w_files w') q = true.
Proof.
  induction atts as [|a atts IH]; intros file_paths w w' r; simpl.
  - by intros [= <- <-].
  - unfold mbind, M_bind.
    destruct (save_attachment _ _ _ _ _ _ _ _) as [w1 r1] eqn:Hstep.
    apply save_attachment_cases in Hstep. intros Hrest Hq.
    assert (isfile (w_files w1) q = true) as Hq1.
    { destruct Hstep as [(-> & _)|[(-> & _)|(-> & _)]]; [done| |done].
      unfold isfile in *.
      destruct (decide (join dst_folder (name a) = q)) as [->|Hne].
      - by rewrite lookup_insert_eq.
      - by rewrite lookup_insert_ne. }
    destruct r1 as [paths1|e].
    + by eapply IH.
    + by injection Hrest as <- <-.
Qed.

(** The list of paths only grows; what is added are candidate paths that
    pass the filter, in the order of their attachments. *)
Lemma save_loop_paths (dst_folder : string) (ext : option string)
    (overwrite : bool) (atts : list Attachment) :
  ∀ file_paths w w' paths,
    save_loop join open_refused dst_folder ext overwrite atts file_paths w
      = (w', Ok paths) →
    ∃ written,
      paths = file_paths ++ written ∧
      sublist written
        (List.filter (ext_accepts ext)
           (map (candidate join dst_folder) atts)).
Proof.
  induction atts as [|a atts IH]; intros file_paths w w' paths; simpl.
  - intros [= <- <-]. exists []. by rewrite app_nil_r.
  - unfold mbind, M_bind.
    destruct (save_attachment _ _ _ _ _ _ _ _) as [w1 r1] eqn:Hstep.
    apply save_attachment_cases in Hstep.
    destruct Hstep as [(_ & -> & Hwhy)|[(_ & -> & Hext & _)|(_ & e & ->)]];
      [| |done]; intros Hrest; apply IH in Hrest as (written & -> & Hsub).
    + exists written. split; [done|]. unfold candidate at 1.
      destruct (ext_accepts ext (join dst_folder (name a))); [|done].
      by apply sublist_cons.
    + exists (join dst_folder (name a) :: written).
      split; [by rewrite <- app_assoc|].
      unfold candidate at 1. rewrite Hext. by apply sublist_skip.
Qed.

(** When overwriting, a call that returns has written every attachment
    that passes the filter. *)
Lemma save_loop_paths_overwrite (dst_folder : string) (ext : option string)
    (atts : list Attachment) :
  ∀ file_paths w w' paths,
    save_loop join open_refused dst_folder ext true atts file_paths w
      = (w', Ok paths) →
    paths = file_paths ++
            List.filter (ext_accepts ext)
              (map (candidate join dst_folder) atts).
Proof.
  induction atts as [|a atts IH]; intros file_paths w w' paths; simpl.
  - intros [= <- <-]. by rewrite app_nil_r.
  - unfold mbind, M_bind.
    destruct (save_attachment _ _ _ _ _ _ _ _) as [w1 r1] eqn:Hstep.
    apply save_attachment_cases in Hstep. unfold candidate at 1.
    destruct Hstep
      as [(_ & -> & [Hext|[_ ?]])|[(_ & -> & Hext & _)|(_ & e & ->)]];
      try done; intros Hrest; apply IH in Hrest as ->; rewrite Hext.
    + done.
    + by rewrite <- app_assoc.
Qed.

(** Without overwriting, a regular file that is there before the call is
    left as it is and its path is not added to the list. *)
Lemma save_loop_keeps_existing (dst_folder : string) (ext : option string)
    (atts : list Attachment) (q : string) :
  ∀ file_paths w w' r,
    save_loop join open_refused dst_folder ext false atts file_paths w
      = (w', r) →
    isfile (w_files w) q = true →
    w_files w' !! q = w_files w !! q ∧
    ∀ paths, r = Ok paths → q ∉ file_paths → q ∉ paths.
Proof.
  induction atts as [|a atts IH]; intros file_paths w w' r; simpl.
  - intros [= <- <-] _. split; [done|]. by intros paths [= <-].
  - unfold mbind, M_bind.
    destruct (save_attachment _ _ _ _ _ _ _ _) as [w1 r1] eqn:Hstep.
    apply save_attachment_cases in Hstep. intros Hrest Hq.
    destruct Hstep
      as [(Hf & -> & _)|[(Hf & -> & _ & Hover)|(Hf & e & ->)]].
    + rewrite <- Hf in *. by eapply IH.
    + assert (join dst_folder (name a) ≠ q) as Hne.
      { intros Heq. rewrite Heq in Hover. by specialize (Hover Hq). }
      assert (w_files w1 !! q = w_files w !! q) as Hsame.
      { rewrite Hf. by apply lookup_insert_ne. }
      assert (isfile (w_files w1) q = true) as Hq1.
      { unfold isfile in *. by rewrite Hsame. }
      destruct (IH _ _ _ _ Hrest Hq1) as [Hfiles Hpaths].
      split; [by rewrite Hfiles|].
      intros paths Hr Hnot. apply (Hpaths paths Hr).
      rewrite elem_of_app, list_elem_of_singleton.
      intros [Hin|Heq]; [by apply Hnot|by apply Hne].
    + injection Hrest as <- <-. rewrite Hf. split; [done|]. done.
Qed.

End SaverFacts.

(** ** The claims about the attachment saver *)

(** C8. When the destination folder does not exist, the saver fails with
    the folder error at once, whatever the message and its attachments:
    the world is as before, no file is changed, none has been opened for
    writing and nothing was printed. *)
Theorem missing_destination_fails_fast (join : string → string → string)
    (open_refused : gmap string node → string → option exn) (msg : Message)
    (dst_folder : string) (ext : option string) (overwrite : bool)
    (w : world) :
  exists_ (w_files w) dst_folder = false →
  download_attachments join open_refused msg dst_folder ext overwrite w =
    (w, Raise (FolderNotFoundError ("Folder does not exist: " +:+ dst_folder))).
Proof.
  intros H. unfold download_attachments, mbind, M_bind, path_exists.
  by rewrite H.
Qed.

Lemma missing_destination_fails_fast_witness :
  download_attachments slash_join permissive
    (message_with [attachment "a.pdf" "new"; attachment "b.pdf" "B"])
    "/nowhere" (Some ".pdf") true out_with_a =
  (out_with_a, Raise (FolderNotFoundError "Folder does not exist: /nowhere")).
Proof.
  apply (missing_destination_fails_fast slash_join permissive
           (message_with [attachment "a.pdf" "new"; attachment "b.pdf" "B"])
           "/nowhere" (Some ".pdf") true out_with_a).
  reflexivity.
Defined.




(** ** The extension filter *)

Lemma lower_char_not_upper (c : ascii) : Str.is_upper (Str.lower_char c) = false.
Proof. destruct c as [[] [] [] [] [] [] [] []]; reflexivity. Qed.

Lemma lower_has_no_upper (s : string) : has_upper (Str.lower s) = false.
Proof.
  induction s as [|c s IH]; simpl; [done|].
  by rewrite lower_char_not_upper, IH.
Qed.

Lemma endswith_has_upper (s suffix : string) :
  Str.endswith s suffix = true → has_upper suffix = true → has_upper s = true.
Proof.
  induction s as [|c s IH].
  - simpl. rewrite orb_false_r. by destruct suffix.
  - change (Str.endswith (String c s) suffix)
      with (String.eqb (String c s) suffix || Str.endswith s suffix).
    intros H Hup. apply orb_true_iff in H as [H|H].
    + apply String.eqb_eq in H. by subst.
    + simpl. rewrite (IH H Hup). apply orb_true_r.
Qed.

(** The path is lower-cased and the extension is not: an extension with an
    upper-case letter in it accepts no path at all. *)
Lemma upper_case_extension_accepts_nothing (e file_path : string) :
  has_upper e = true → ext_accepts (Some e) file_path = false.
Proof.
  intros Hup. simpl.
  destruct (Str.endswith (Str.lower file_path) e) eqn:E; [|done].
  pose proof (endswith_has_upper _ _ E Hup) as H.
  by rewrite lower_has_no_upper in H.
Qed.

Lemma lower_fixed_iff (e : string) : Str.lower e = e ↔ has_upper e = false.
Proof.
  induction e as [|c e IH]; simpl; [done|].
  unfold Str.lower_char at 1. split.
  - intros [= Hc He]. apply IH in He. rewrite He, orb_false_r.
    destruct (Str.is_upper c) eqn:U; [|done].
    exfalso. pose proof (lower_char_not_upper c) as N.
    unfold Str.lower_char in N. rewrite U, Hc in N. congruence.
  - intros H. apply orb_false_iff in H as [U He].
    rewrite U. f_equal. by apply IH.
Qed.

(** With a lower-case extension the filter is the match that ignores
    case. *)
Lemma lower_case_extension_matches (e file_path : string) :
  has_upper e = false →
  ext_accepts (Some e) file_path = matches_ignoring_case e file_path.
Proof.
  intros H. apply lower_fixed_iff in H. unfold matches_ignoring_case. simpl.
  by rewrite H.
Qed.

(** C1 on the code. With the extension [.PDF], which the documentation of
    the saver calls case insensitive, none of a.PDF, b.docx, c.pdf is
    written, although a.PDF and c.pdf match it when case is ignored; with
    [.pdf] both are written, in their order. *)
Theorem upper_case_extension_saves_nothing :
  let msg := message_with [attachment "a.PDF" "A"; attachment "b.docx" "B";
                           attachment "c.pdf" "C"] in
  download_attachments slash_join permissive msg "/out" (Some ".PDF") false
    empty_out = (empty_out, Ok []) ∧
  matches_ignoring_case ".PDF" "/out/a.PDF" = true ∧
  matches_ignoring_case ".PDF" "/out/c.pdf" = true ∧
  (download_attachments slash_join permissive msg "/out" (Some ".pdf") false
     empty_out).2 = Ok ["/out/a.PDF"; "/out/c.pdf"].
Proof. repeat split; vm_compute; reflexivity. Qed.

(** ** The claim about the message finder *)

(** The finder on the query of the library. *)
Abbreviation fetch_from_store from_datetime astimezone time_le listing sender_is :=
  (fetch_messages _ _ _ _ from_datetime astimezone
     (queryset_list _ _ time_le listing sender_is)).




(** * Further properties of the loader *)

Lemma store_param_raises (n v : string) (st : loader_state) (e : exn) :
  store_param n v st = Raise e → e = UnboundLocalError "key".
Proof.
  destruct st as [params key]. unfold store_param.
  destruct (select_key n key); [done|]. by intros [= <-].
Qed.

Lemma credentials_loop_raises (lines : list string) (st : loader_state)
    (e : exn) :
  credentials_loop lines st = Raise e → e = UnboundLocalError "key".
Proof.
  revert st. induction lines as [|line rest IH]; intros st; simpl; [done|].
  destruct (credentials_line line st) as [st1|e1] eqn:E; simpl.
  - apply IH.
  - intros [= <-]. rewrite credentials_line_eq in E.
    destruct (Str.contains Str.colon line); [|done].
    by eapply store_param_raises.
Qed.

(** Once the lines of the file have been read, the rest of the loader,
    the scan and the three checks, raises nothing but the unbound local of
    the loop or the error of one of the three missing fields: never an
    index error on the tokens of a line, never a key error on [params]. *)
Theorem scan_and_checks_raise_only (acc_name : string) (lines : list string)
    (e : exn) :
  (st ← credentials_loop lines (initial_params acc_name, None);
   verify_params st.1) = Raise e →
  e = UnboundLocalError "key" ∨
  e = ValueError "Parameter 'client_id' not found!" ∨
  e = ValueError "Parameter 'client_secret' not found!" ∨
  e = ValueError "Parameter 'tenant_id' not found!".
Proof.
  destruct (credentials_loop lines (initial_params acc_name, None))
    as [st|e1] eqn:Hloop; simpl.
  - intros Hv.
    pose proof (credentials_loop_inv acc_name _ _ _
                  (initial_inv acc_name) Hloop) as Hinv.
    pose proof (verify_params_eq acc_name st Hinv) as Hspec.
    unfold first_unset in Hspec.
    destruct (unset st.1 "client_id");
      [rewrite Hspec in Hv; injection Hv as <-; auto|].
    destruct (unset st.1 "client_secret");
      [rewrite Hspec in Hv; injection Hv as <-; auto|].
    destruct (unset st.1 "tenant_id");
      [rewrite Hspec in Hv; injection Hv as <-; auto|].
    destruct Hspec as (a & b & c & _ & _ & _ & Hok). congruence.
  - intros [= <-]. left. by eapply credentials_loop_raises.
Qed.

Lemma scan_and_checks_raise_only_witness :
  let lines := file_lines (bytes_of (text_of ["Client ID: id"; "no colon";
                                              "Tenant ID"; "Client Secret:"])) in
  let e := ValueError "Parameter 'tenant_id' not found!" in
  (st ← credentials_loop lines (initial_params "robot@x.org", None);
   verify_params st.1) = Raise e ∧
  (e = UnboundLocalError "key" ∨
   e = ValueError "Parameter 'client_id' not found!" ∨
   e = ValueError "Parameter 'client_secret' not found!" ∨
   e = ValueError "Parameter 'tenant_id' not found!").
Proof.
  intros lines e.
  assert ((st ← credentials_loop lines (initial_params "robot@x.org", None);
           verify_params st.1) = Raise e) as H by (vm_compute; reflexivity).
  split; [exact H|].
  exact (scan_and_checks_raise_only "robot@x.org" lines e H).
Defined.

Lemma credentials_loop_bound_key (lines : list string)
    (params : gmap string pyval) (k : string) :
  is_Ok (credentials_loop lines (params, Some k)) = true.
Proof.
  revert params k. induction lines as [|line rest IH]; intros params k; simpl;
    [done|].
  rewrite credentials_line_eq.
  destruct (Str.contains Str.colon line); simpl; [|apply IH].
  unfold store_param.
  destruct (select_key_cases (label_of line) (Some k))
    as [[_ ->]|[[_ ->]|[[_ ->]|[_ ->]]]]; simpl; apply IH.
Qed.

(** The loop fails exactly when the first line with a colon carries an
    unrecognized label; once a recognized label has been seen it cannot
    fail any more. *)
Theorem scan_fails_iff_starts_badly (lines : list string)
    (params : gmap string pyval) :
  is_Ok (credentials_loop lines (params, None)) =
    negb (scan_starts_badly lines) ∧
  ∀ k, is_Ok (credentials_loop lines (params, Some k)) = true.
Proof.
  split; [|intros k; apply credentials_loop_bound_key].
  induction lines as [|line rest IH]; simpl; [done|].
  destruct (Str.contains Str.colon line) eqn:Hc.
  - destruct (unrecognized line) eqn:Hu.
    + by rewrite (unrecognized_line_step _ _ _ Hu).
    + rewrite (well_formed_line_step _ _ _ Hu). simpl.
      unfold line_field, unrecognized in *. rewrite Hc in *. simpl in Hu.
      destruct (field_of_label (label_of line)) as [k|]; [|done].
      apply credentials_loop_bound_key.
  - rewrite credentials_line_eq, Hc. simpl. apply IH.
Qed.

(** Lines without a colon play no part: the loop does the same on the
    lines that have one. *)
Theorem colon_free_lines_play_no_part (lines : list string) (st : loader_state) :
  credentials_loop lines st =
  credentials_loop (List.filter (Str.contains Str.colon) lines) st.
Proof.
  revert st. induction lines as [|line rest IH]; intros st; simpl; [done|].
  destruct (Str.contains Str.colon line) eqn:Hc; simpl.
  - destruct (credentials_line line st); simpl; [apply IH|done].
  - rewrite credentials_line_eq, Hc. simpl. apply IH.
Qed.

(** ** The order of the lines *)

Lemma last_value_values (k : string) (lines : list string) :
  last_value k lines = last (field_values k lines).
Proof.
  unfold field_values. induction lines as [|line rest IH]; [done|].
  change (last_value k (line :: rest))
    with (match last_value k rest with
          | Some v => Some v
          | None => value_for k line
          end).
  change (omap (value_for k) (line :: rest))
    with (match value_for k line with
          | Some y => y :: omap (value_for k) rest
          | None => omap (value_for k) rest
          end).
  rewrite IH. destruct (value_for k line) as [v|].
  - by rewrite last_cons.
  - by destruct (last (omap (value_for k) rest)).
Qed.

Lemma field_values_perm (k : string) (l1 l2 : list string) :
  l1 ≡ₚ l2 → length (field_values k l1) ≤ 1 →
  field_values k l1 = field_values k l2.
Proof.
  intros Hp Hlen.
  assert (field_values k l1 ≡ₚ field_values k l2) as Hv
    by (unfold field_values; by rewrite Hp).
  destruct (field_values k l1) as [|x [|y more]]; simpl in Hlen; [| |lia].
  - by apply Permutation_nil_l.
  - by apply Permutation_singleton_l.
Qed.



(** ** What the loaded values look like *)

Lemma lstrip_head (s : string) :
  Str.lstrip s = EmptyString ∨
  ∃ c t, Str.lstrip s = String c t ∧ Str.is_space c = false.
Proof.
  induction s as [|c s IH]; simpl; [by left|].
  destruct (Str.is_space c) eqn:E; [done|]. right. by exists c, s.
Qed.

Lemma rstrip_head (c : ascii) (t : string) :
  Str.is_space c = false → ∃ r, Str.rstrip (String c t) = String c r.
Proof.
  intros E. simpl. destruct (Str.rstrip t); rewrite ?E; eauto.
Qed.

Lemma rstrip_idem (s : string) : Str.rstrip (Str.rstrip s) = Str.rstrip s.
Proof.
  induction s as [|c s IH]; simpl; [done|].
  destruct (Str.rstrip s) as [|d r] eqn:E.
  - destruct (Str.is_space c) eqn:Ec; simpl; [done|]. by rewrite Ec.
  - change (Str.rstrip (String c (String d r)))
      with (match Str.rstrip (String d r) with
            | EmptyString =>
                if Str.is_space c then EmptyString else String c EmptyString
            | x => String c x
            end).
    by rewrite IH.
Qed.

Lemma strip_idem (s : string) : Str.strip (Str.strip s) = Str.strip s.
Proof.
  unfold Str.strip.
  destruct (lstrip_head s) as [->|(c & t & -> & Ec)]; [done|].
  destruct (rstrip_head c t Ec) as [r Hr]. rewrite Hr.
  change (Str.lstrip (String c r))
    with (if Str.is_space c then Str.lstrip r else String c r).
  rewrite Ec, <- Hr. apply rstrip_idem.
Qed.

Lemma lstrip_no_char (c : ascii) (s : string) :
  Str.contains c s = false → Str.contains c (Str.lstrip s) = false.
Proof.
  induction s as [|d s IH]; simpl; [done|].
  intros H. apply orb_false_iff in H as [Hd Hs].
  destruct (Str.is_space d); [by apply IH|]. simpl. by rewrite Hd, Hs.
Qed.

Lemma rstrip_no_char (c : ascii) (s : string) :
  Str.contains c s = false → Str.contains c (Str.rstrip s) = false.
Proof.
  induction s as [|d s IH]; simpl; [done|].
  intros H. apply orb_false_iff in H as [Hd Hs]. specialize (IH Hs).
  destruct (Str.rstrip s) as [|e r].
  - destruct (Str.is_space d); simpl; [done|]. by rewrite Hd.
  - change (Str.contains c (String d (String e r)))
      with (Ascii.eqb d c || Str.contains c (String e r)).
    by rewrite Hd, IH.
Qed.

Lemma value_of_clean (line : string) : clean (value_of line).
Proof.
  unfold clean, value_of. split; [apply strip_idem|].
  unfold Str.strip. apply rstrip_no_char, lstrip_no_char.
  apply before_colon_no_colon.
Qed.

Lemma initial_params_clean (acc_name : string) :
  clean_params (initial_params acc_name).
Proof.
  intros k v. unfold initial_params.
  rewrite !lookup_insert, lookup_empty. by repeat case_decide.
Qed.

Lemma credentials_loop_clean (lines : list string) (st st' : loader_state) :
  clean_params st.1 → credentials_loop lines st = Ok st' → clean_params st'.1.
Proof.
  revert st. induction lines as [|line rest IH]; intros st Hc; simpl.
  - by intros [= <-].
  - destruct (credentials_line line st) as [st1|e] eqn:E; simpl; [|done].
    apply IH. rewrite credentials_line_eq in E.
    destruct (Str.contains Str.colon line); [|by injection E as <-].
    destruct st as [params key]. unfold store_param in E.
    destruct (select_key (label_of line) key) as [k|]; [|done].
    injection E as <-. simpl in *. intros k' v.
    rewrite lookup_insert. case_decide.
    + intros [= <-]. apply value_of_clean.
    + apply Hc.
Qed.

(** The three strings of a returned record have no white space at their
    ends (so no line end either) and no colon in them. *)
Theorem loaded_values_clean (join : string → string → string)
    (environ : gmap string string) (files : gmap string node)
    (acc_name : string) (c : OAuth2Credentials) :
  _get_credentials join environ files acc_name = Ok c →
  ∃ a b t,
    c = {| client_id := PStr a; client_secret := PStr b;
           tenant_id := PStr t; identity := PIdentity acc_name |} ∧
    clean a ∧ clean b ∧ clean t.
Proof.
  intros H.
  destruct (get_credentials_Ok join _ _ _ _ H)
    as (appdata & content & st & _ & _ & Hloop & Hverify).
  pose proof (credentials_loop_inv acc_name _ _ _
                (initial_inv acc_name) Hloop) as Hinv.
  pose proof (credentials_loop_clean _ (initial_params acc_name, None) _
                (initial_params_clean acc_name) Hloop) as Hclean.
  pose proof (verify_params_eq acc_name st Hinv) as Hv.
  destruct (first_unset st.1); [congruence|].
  destruct Hv as (a & b & t & Ha & Hb & Ht & Hv).
  exists a, b, t. split; [congruence|].
  split; [by eapply Hclean|split; by eapply Hclean].
Qed.

Lemma loaded_values_clean_witness :
  let files := cred_file (text_of ["Client ID:   id  "; "Client Secret: s:x";
                                   "Tenant ID: ten"]) in
  ∃ a b t,
    {| client_id := PStr "id"; client_secret := PStr "s";
       tenant_id := PStr "ten"; identity := PIdentity "robot@x.org" |} =
    {| client_id := PStr a; client_secret := PStr b;
       tenant_id := PStr t; identity := PIdentity "robot@x.org" |} ∧
    clean a ∧ clean b ∧ clean t.
Proof.
  intros files.
  apply (loaded_values_clean slash_join test_environ files "robot@x.org").
  vm_compute. reflexivity.
Defined.

(** ** The case of the account name *)

Lemma initial_params_identity (a b : string) :
  <["identity" := PIdentity b]> (initial_params a) = initial_params b.
Proof.
  apply map_eq. intros k. unfold initial_params.
  rewrite !lookup_insert, lookup_empty.
  repeat case_decide; simplify_eq; done.
Qed.

Lemma credentials_loop_identity (v : pyval) (lines : list string)
    (params : gmap string pyval) (key : option string) :
  (∀ k, key = Some k → is_field k) →
  credentials_loop lines (<["identity" := v]> params, key) =
  match credentials_loop lines (params, key) with
  | Ok st => Ok (<["identity" := v]> st.1, st.2)
  | Raise e => Raise e
  end.
Proof.
  revert params key. induction lines as [|line rest IH]; intros params key Hkey;
    simpl; [done|].
  rewrite !credentials_line_eq.
  destruct (Str.contains Str.colon line); simpl; [|by apply IH].
  unfold store_param.
  destruct (select_key (label_of line) key) as [k|] eqn:E; simpl; [|done].
  assert (is_field k) as Hk by eauto using select_key_is_field.
  rewrite insert_insert_ne by (by apply is_field_not_identity).
  apply IH. by intros k' [= <-].
Qed.

(** Two account names that differ in case only read the same file: they
    fail alike, and the records they load differ in the identity only. *)
Theorem account_name_case (join : string → string → string)
    (environ : gmap string string) (files : gmap string node)
    (name1 name2 : string) :
  Str.lower name1 = Str.lower name2 →
  _get_credentials join environ files name2 =
  match _get_credentials join environ files name1 with
  | Ok c => Ok (with_identity name2 c)
  | Raise e => Raise e
  end.
Proof.
  intros Hlow. unfold _get_credentials, cred_path_of. rewrite Hlow.
  destruct (getitem_dict environ "APPDATA") as [appdata|e]; simpl; [|done].
  destruct (isfile files _); simpl; [|done].
  destruct (readlines files _) as [lines|e]; simpl; [|done].
  rewrite <- (initial_params_identity name1 name2).
  rewrite credentials_loop_identity by done.
  destruct (credentials_loop lines (initial_params name1, None))
    as [st|e] eqn:Hloop; simpl; [|done].
  pose proof (credentials_loop_inv name1 _ _ _ (initial_inv name1) Hloop)
    as Hinv.
  unfold verify_params, getitem_dict.
  rewrite (lookup_insert_ne _ "identity" "client_id") by done.
  rewrite (lookup_insert_ne _ "identity" "client_secret") by done.
  rewrite (lookup_insert_ne _ "identity" "tenant_id") by done.
  rewrite lookup_insert_eq.
  destruct (inv_fields _ _ Hinv "client_id") as [->|[a ->]];
    [unfold is_field; auto|done|]; simpl.
  destruct (inv_fields _ _ Hinv "client_secret") as [->|[b ->]];
    [unfold is_field; auto|done|]; simpl.
  destruct (inv_fields _ _ Hinv "tenant_id") as [->|[t ->]];
    [unfold is_field; auto|done|]; simpl.
  rewrite (inv_identity _ _ Hinv). done.
Qed.

Lemma account_name_case_witness :
  let files := cred_file (text_of ["Client ID: id"; "Client Secret: sec";
                                   "Tenant ID: ten"]) in
  _get_credentials slash_join test_environ files "ROBOT@x.org" =
  match _get_credentials slash_join test_environ files "Robot@X.org" with
  | Ok c => Ok (with_identity "ROBOT@x.org" c)
  | Raise e => Raise e
  end.
Proof.
  intros files.
  apply (account_name_case slash_join test_environ files
           "Robot@X.org" "ROBOT@x.org").
  reflexivity.
Defined.

(** * Further properties of the attachment saver *)

Section SaverMore.

Variable join : string → string → string.
Variable open_refused : gmap string node → string → option exn.

Lemma download_attachments_eq (msg : Message) (dst_folder : string)
    (ext : option string) (overwrite : bool) (w : world) :
  exists_ (w_files w) dst_folder = true →
  download_attachments join open_refused msg dst_folder ext overwrite w =
  save_loop join open_refused dst_folder ext overwrite (attachments msg) [] w.
Proof.
  intros H. unfold download_attachments, mbind, M_bind, path_exists.
  by rewrite H.
Qed.

Lemma download_attachments_missing (msg : Message) (dst_folder : string)
    (ext : option string) (overwrite : bool) (w : world) :
  exists_ (w_files w) dst_folder = false →
  download_attachments join open_refused msg dst_folder ext overwrite w =
  (w, Raise (FolderNotFoundError ("Folder does not exist: " +:+ dst_folder))).
Proof.
  intros H. unfold download_attachments, mbind, M_bind, path_exists.
  by rewrite H.
Qed.

(** What one attachment can do to the files: nothing, or put its bytes at
    its candidate path, which passes the filter and was free before, or
    held a regular file when overwriting. *)
Lemma save_attachment_effect (dst_folder : string) (ext : option string)
    (overwrite : bool) (file_paths : list string) (att : Attachment)
    (w w' : world) (r : result (list string)) :
  save_attachment join open_refused dst_folder ext overwrite file_paths att w
    = (w', r) →
  w_files w' = w_files w ∨
  (w_files w' =
     <[candidate join dst_folder att := File (content att)]> (w_files w) ∧
   ext_accepts ext (candidate join dst_folder att) = true ∧
   (w_files w !! candidate join dst_folder att = None ∨
    (overwrite = true ∧
     ∃ old, w_files w !! candidate join dst_folder att = Some (File old)))).
Proof.
  unfold save_attachment, candidate.
  set (p := join dst_folder (name att)).
  destruct (ext_accepts ext p) eqn:Hext; simpl;
    [|intros [= <- <-]; by left].
  unfold mbind, M_bind, path_isfile, isfile, write_file, print. simpl.
  destruct (w_files w !! p) as [[old| |]|] eqn:Hp; simpl.
  - destruct overwrite; simpl; [|intros [= <- <-]; by left].
    destruct (open_refused (w_files w) p); simpl; [intros [= <- <-]; by left|].
    rewrite Hp. simpl. rewrite lookup_insert_eq. simpl.
    intros [= <- <-]. right. simpl. eauto 6.
  - destruct (open_refused (w_files w) p); simpl; [intros [= <- <-]; by left|].
    rewrite Hp. intros [= <- <-]. by left.
  - destruct (open_refused (w_files w) p); simpl; [intros [= <- <-]; by left|].
    rewrite Hp. simpl. rewrite Hp. simpl. intros [= <- <-]. by left.
  - destruct (open_refused (w_files w) p); simpl; [intros [= <- <-]; by left|].
    rewrite Hp. simpl. rewrite lookup_insert_eq. simpl.
    intros [= <- <-]. right. simpl. eauto.
Qed.

Lemma save_loop_effect (dst_folder : string) (ext : option string)
    (overwrite : bool) (all atts : list Attachment) :
  (∀ a, a ∈ atts → a ∈ all) →
  ∀ file_paths w w' r,
    save_loop join open_refused dst_folder ext overwrite atts file_paths w
      = (w', r) →
    ∀ q, untouched_or_saved join dst_folder ext overwrite all
           (w_files w) (w_files w') q.
Proof.
  induction atts as [|a atts IH]; intros Hall file_paths w w' r; simpl.
  - intros [= <- <-] q. by left.
  - unfold mbind, M_bind.
    destruct (save_attachment _ _ _ _ _ _ _ _) as [w1 r1] eqn:Hstep.
    apply save_attachment_effect in Hstep. intros Hrest q.
    assert (untouched_or_saved join dst_folder ext overwrite all
              (w_files w1) (w_files w') q) as Hq.
    { destruct r1 as [paths1|e].
      - eapply IH; [|exact Hrest]. intros b Hb. apply Hall. by right.
      - injection Hrest as <- <-. by left. }
    destruct Hstep as [Hsame|(Hnew & Hext & Hbefore)];
      [by rewrite <- Hsame|].
    set (p := candidate join dst_folder a) in *.
    destruct (decide (p = q)) as [<-|Hne].
    + right. destruct Hq as [Hq|[Hq _]].
      * split; [|done]. exists a. split; [apply Hall; by left|].
        split; [done|]. split; [done|].
        by rewrite Hq, Hnew, lookup_insert_eq.
      * done.
    + assert (w_files w1 !! q = w_files w !! q) as Hframe
        by (by rewrite Hnew, lookup_insert_ne).
      unfold untouched_or_saved in *. by rewrite <- Hframe.
Qed.

Lemma download_attachments_effect (msg : Message) (dst_folder : string)
    (ext : option string) (overwrite : bool) (w w' : world)
    (r : result (list string)) (q : string) :
  download_attachments join open_refused msg dst_folder ext overwrite w
    = (w', r) →
  untouched_or_saved join dst_folder ext overwrite (attachments msg)
    (w_files w) (w_files w') q.
Proof.
  destruct (exists_ (w_files w) dst_folder) eqn:Hdst.
  - rewrite download_attachments_eq by done. intros Hloop.
    by apply (save_loop_effect dst_folder ext overwrite (attachments msg)
                (attachments msg) (λ a H, H) _ _ _ _ Hloop q).
  - rewrite download_attachments_missing by done. intros [= <- <-]. by left.
Qed.

(** The saver destroys nothing: whatever the call does, and also when it
    raises, a path that exists before the call names a directory, a device
    or a regular file after it as it did before; without [overwrite] it
    names exactly what it named, and with [overwrite] only the content of
    a regular file can have changed. *)
Theorem saver_keeps_what_exists (msg : Message) (dst_folder : string)
    (ext : option string) (overwrite : bool) (w w' : world)
    (r : result (list string)) (q : string) :
  download_attachments join open_refused msg dst_folder ext overwrite w
    = (w', r) →
  exists_ (w_files w) q = true →
  (overwrite = false → w_files w' !! q = w_files w !! q) ∧
  (w_files w' !! q = w_files w !! q ∨
   ∃ old new, w_files w !! q = Some (File old) ∧
              w_files w' !! q = Some (File new)).
Proof.
  intros Hcall Hq. unfold exists_ in Hq.
  destruct (download_attachments_effect _ _ _ _ _ _ _ q Hcall)
    as [Hsame|[(a & _ & _ & _ & Hnew) [Hnone|(Hover & old & Hold)]]].
  - split; [done|by left].
  - by rewrite Hnone in Hq.
  - split; [by rewrite Hover|]. right. by exists old, (content a).
Qed.

Lemma save_loop_rejected (dst_folder : string) (ext : option string)
    (overwrite : bool) (atts : list Attachment) :
  Forall (λ a, ext_accepts ext (candidate join dst_folder a) = false) atts →
  ∀ file_paths w,
    save_loop join open_refused dst_folder ext overwrite atts file_paths w
    = (w, Ok file_paths).
Proof.
  induction 1 as [|a atts Ha _ IH]; intros file_paths w; simpl; [done|].
  unfold mbind, M_bind, save_attachment. unfold candidate in Ha.
  rewrite Ha. simpl. apply IH.
Qed.

(** A message without attachments, or whose attachments all fail the
    filter, gives the empty list and leaves the world as it is: nothing
    written, opened or printed. *)
Theorem nothing_accepted_nothing_done (msg : Message) (dst_folder : string)
    (ext : option string) (overwrite : bool) (w : world) :
  exists_ (w_files w) dst_folder = true →
  Forall (λ a, ext_accepts ext (candidate join dst_folder a) = false)
    (attachments msg) →
  download_attachments join open_refused msg dst_folder ext overwrite w
    = (w, Ok []).
Proof.
  intros Hdst Hall. rewrite download_attachments_eq by done.
  by apply save_loop_rejected.
Qed.

(** The returned paths are candidate paths that pass the filter, in the
    order of their attachments. *)
Theorem returned_paths_in_order (msg : Message) (dst_folder : string)
    (ext : option string) (overwrite : bool) (w w' : world)
    (paths : list string) :
  download_attachments join open_refused msg dst_folder ext overwrite w
    = (w', Ok paths) →
  sublist paths
    (List.filter (ext_accepts ext)
       (map (candidate join dst_folder) (attachments msg))).
Proof.
  destruct (exists_ (w_files w) dst_folder) eqn:Hdst.
  - rewrite download_attachments_eq by done. intros Hloop.
    by apply save_loop_paths in Hloop as (written & -> & Hsub).
  - by rewrite download_attachments_missing.
Qed.

(** When overwriting, a call that returns has saved every attachment that
    passes the filter: the returned list is the list of their candidate
    paths. *)
Theorem returned_paths_when_overwriting (msg : Message) (dst_folder : string)
    (ext : option string) (w w' : world) (paths : list string) :
  download_attachments join open_refused msg dst_folder ext true w
    = (w', Ok paths) →
  paths = List.filter (ext_accepts ext)
            (map (candidate join dst_folder) (attachments msg)).
Proof.
  destruct (exists_ (w_files w) dst_folder) eqn:Hdst.
  - rewrite download_attachments_eq by done. intros Hloop.
    by apply save_loop_paths_overwrite in Hloop.
  - by rewrite download_attachments_missing.
Qed.

Lemma save_loop_holds (dst_folder : string) (ext : option string)
    (overwrite : bool) (all atts : list Attachment) :
  (∀ a, a ∈ atts → a ∈ all) →
  ∀ file_paths w w' paths,
    (∀ p, p ∈ file_paths →
          holds_attachment join dst_folder all (w_files w) p) →
    save_loop join open_refused dst_folder ext overwrite atts file_paths w
      = (w', Ok paths) →
    ∀ p, p ∈ paths → holds_attachment join dst_folder all (w_files w') p.
Proof.
  induction atts as [|a atts IH]; intros Hall file_paths w w' paths Hinv; simpl.
  - by intros [= <- <-].
  - unfold mbind, M_bind.
    destruct (save_attachment _ _ _ _ _ _ _ _) as [w1 r1] eqn:Hstep.
    apply save_attachment_cases in Hstep.
    destruct Hstep as [(Hf & -> & _)|[(Hf & -> & _)|(_ & e & ->)]]; [| |done].
    + apply IH; [intros b Hb; apply Hall; by right|]. by rewrite Hf.
    + apply IH; [intros b Hb; apply Hall; by right|].
      intros p Hp. rewrite Hf.
      destruct (decide (join dst_folder (name a) = p)) as [<-|Hne].
      * exists a. split; [apply Hall; by left|]. split; [done|].
        apply lookup_insert_eq.
      * apply elem_of_app in Hp as [Hp|Hp];
          [|apply list_elem_of_singleton in Hp; congruence].
        destruct (Hinv p Hp) as (b & Hb & Hcand & Hlook).
        exists b. split; [done|]. split; [done|].
        by rewrite lookup_insert_ne.
Qed.

(** Every path of the returned list names, after the call, a regular file
    that holds the bytes of an attachment of the message that passes the
    extension filter. *)
Theorem returned_paths_are_saved (msg : Message) (dst_folder : string)
    (ext : option string) (overwrite : bool) (w w' : world)
    (paths : list string) (p : string) :
  download_attachments join open_refused msg dst_folder ext overwrite w
    = (w', Ok paths) →
  p ∈ paths →
  ∃ a, a ∈ attachments msg ∧
       ext_accepts ext (candidate join dst_folder a) = true ∧
       w_files w' !! p = Some (File (content a)).
Proof.
  destruct (exists_ (w_files w) dst_folder) eqn:Hdst.
  - rewrite download_attachments_eq by done. intros Hloop Hp.
    destruct (save_loop_holds dst_folder ext overwrite (attachments msg)
                (attachments msg) (λ a H, H) [] w w' paths) with (p := p)
      as (a & Ha & Hcand & Hlook); [|done|done|].
    { intros q Hq. by apply elem_of_nil in Hq. }
    exists a. split; [done|]. split; [|done]. rewrite Hcand.
    apply save_loop_paths in Hloop as (written & -> & Hsub).
    pose proof (elem_of_sublist _ _ _ Hp Hsub) as Hin.
    apply list_elem_of_In, filter_In in Hin. tauto.
  - by rewrite download_attachments_missing.
Qed.

Lemma save_loop_exists (dst_folder : string) (ext : option string)
    (overwrite : bool) (atts : list Attachment) (q : string) :
  ∀ file_paths w w' r,
    save_loop join open_refused dst_folder ext overwrite atts file_paths w
      = (w', r) →
    exists_ (w_files w) q = true → exists_ (w_files w') q = true.
Proof.
  intros file_paths w w' r Hloop.
  pose proof (save_loop_effect dst_folder ext overwrite atts atts (λ a H, H)
                _ _ _ _ Hloop q) as [Hq|[(a & _ & _ & _ & Hq) _]];
    unfold exists_; by rewrite Hq.
Qed.

(** After a loop that returned, every attachment that passes the filter
    has a regular file at its candidate path. *)
Lemma save_loop_all_there (dst_folder : string) (ext : option string)
    (overwrite : bool) (atts : list Attachment) :
  ∀ file_paths w w' paths,
    save_loop join open_refused dst_folder ext overwrite atts file_paths w
      = (w', Ok paths) →
    ∀ a, a ∈ atts → ext_accepts ext (candidate join dst_folder a) = true →
         isfile (w_files w') (candidate join dst_folder a) = true.
Proof.
  induction atts as [|b atts IH]; intros file_paths w w' paths; simpl.
  - intros _ a Ha. by apply elem_of_nil in Ha.
  - unfold mbind, M_bind.
    destruct (save_attachment _ _ _ _ _ _ _ _) as [w1 r1] eqn:Hstep.
    apply save_attachment_cases in Hstep.
    destruct r1 as [paths1|e]; [|done]. intros Hrest a Ha Hext.
    apply elem_of_cons in Ha as [->|Ha]; [|by eapply IH].
    eapply save_loop_isfile; [exact Hrest|]. unfold candidate in *.
    destruct Hstep as [(Hf & _ & [Hno|[Hthere _]])|[(Hf & _)|(_ & e & ?)]].
    + congruence.
    + by rewrite Hf.
    + rewrite Hf. apply isfile_insert_file.
    + done.
Qed.

(** When every accepted attachment already has its file, a run without
    [overwrite] saves nothing. *)
Lemma save_loop_all_skipped (dst_folder : string) (ext : option string)
    (atts : list Attachment) :
  ∀ file_paths w,
    (∀ a, a ∈ atts → ext_accepts ext (candidate join dst_folder a) = true →
          isfile (w_files w) (candidate join dst_folder a) = true) →
    ∃ w', save_loop join open_refused dst_folder ext false atts file_paths w
            = (w', Ok file_paths) ∧
          w_files w' = w_files w.
Proof.
  induction atts as [|b atts IH]; intros file_paths w Hall; simpl.
  - by exists w.
  - unfold mbind, M_bind.
    destruct (save_attachment _ _ _ _ _ _ _ _) as [w1 r1] eqn:Hstep.
    pose proof Hstep as Hcases. apply save_attachment_cases in Hcases.
    assert (w_files w1 = w_files w ∧ r1 = Ok file_paths) as [Hf ->].
    { destruct Hcases as [(Hf & -> & _)|[(_ & _ & Hext & Hover)|(Hf & e & ->)]].
      - done.
      - assert (isfile (w_files w) (join dst_folder (name b)) = true) as Hb
          by (apply Hall; [by left|done]).
        by specialize (Hover Hb).
      - exfalso. revert Hstep. unfold save_attachment.
        destruct (ext_accepts ext (join dst_folder (name b))) eqn:Hext;
          simpl; [|done].
        unfold mbind, M_bind, path_isfile. simpl.
        assert (isfile (w_files w) (join dst_folder (name b)) = true) as Hb
          by (apply Hall; [by left|done]).
        rewrite Hb. simpl. done. }
    destruct (IH file_paths w1) as (w' & Hloop & Hsame).
    { intros a Ha Hext. rewrite Hf. apply Hall; [by right|done]. }
    exists w'. split; [done|]. by rewrite Hsame.
Qed.

(** Saving again is safe: after a call that returned, a second call
    without [overwrite] for the same message and folder writes nothing,
    returns the empty list and leaves every file as the first call left
    it. *)
Theorem second_run_saves_nothing (msg : Message) (dst_folder : string)
    (ext : option string) (overwrite : bool) (w w1 : world)
    (paths : list string) :
  download_attachments join open_refused msg dst_folder ext overwrite w
    = (w1, Ok paths) →
  ∃ w2,
    download_attachments join open_refused msg dst_folder ext false w1
      = (w2, Ok []) ∧
    w_files w2 = w_files w1.
Proof.
  destruct (exists_ (w_files w) dst_folder) eqn:Hdst;
    [|by rewrite download_attachments_missing].
  rewrite download_attachments_eq by done. intros Hloop.
  rewrite download_attachments_eq by (by eapply save_loop_exists).
  apply save_loop_all_skipped. by eapply save_loop_all_there.
Qed.

(** An error ends the call: when the saver raises for a message, it raises
    the same error and leaves the same world for any message that has
    further attachments after those. *)
Theorem error_ends_the_call (msg msg' : Message) (more : list Attachment)
    (dst_folder : string) (ext : option string) (overwrite : bool)
    (w w' : world) (e : exn) :
  attachments msg' = attachments msg ++ more →
  download_attachments join open_refused msg dst_folder ext overwrite w
    = (w', Raise e) →
  download_attachments join open_refused msg' dst_folder ext overwrite w
    = (w', Raise e).
Proof.
  intros Hatts. destruct (exists_ (w_files w) dst_folder) eqn:Hdst.
  - rewrite !download_attachments_eq by done.
    rewrite Hatts, save_loop_app. by intros ->.
  - by rewrite !download_attachments_missing.
Qed.

(** The check after the write: when the candidate path of the first
    attachment names something that exists but is neither a regular file
    nor a directory, the write goes through, the check finds no file and
    the call raises, with no file changed. *)
Theorem device_fails_the_check (msg : Message) (att : Attachment)
    (rest : list Attachment) (dst_folder : string) (ext : option string)
    (overwrite : bool) (w : world) :
  attachments msg = att :: rest →
  exists_ (w_files w) dst_folder = true →
  ext_accepts ext (candidate join dst_folder att) = true →
  w_files w !! candidate join dst_folder att = Some Special →
  open_refused (w_files w) (candidate join dst_folder att) = None →
  download_attachments join open_refused msg dst_folder ext overwrite w =
    (log (EvOpenWrite (candidate join dst_folder att)) w,
     Raise (FileNotFoundError
              ("Error writing attachment data to file: " +:+
               candidate join dst_folder att))).
Proof.
  intros Hatts Hdst Hext Hnode Hopen.
  rewrite download_attachments_eq by done. rewrite Hatts. simpl.
  unfold mbind, M_bind, save_attachment. unfold candidate in *.
  rewrite Hext. simpl.
  unfold mbind, M_bind, path_isfile, isfile, write_file. simpl.
  rewrite Hnode. simpl. rewrite Hopen, Hnode. simpl. by rewrite Hnode.
Qed.

End SaverMore.

(** ** The saver on examples *)

Lemma saver_keeps_what_exists_witness :
  let msg := message_with [attachment "a.pdf" "new"; attachment "b.txt" "B"] in
  let run := download_attachments slash_join permissive msg "/out"
               (Some ".pdf") true out_with_a in
  (true = false →
   w_files run.1 !! "/out/a.pdf" = w_files out_with_a !! "/out/a.pdf") ∧
  (w_files run.1 !! "/out/a.pdf" = w_files out_with_a !! "/out/a.pdf" ∨
   ∃ old new, w_files out_with_a !! "/out/a.pdf" = Some (File old) ∧
              w_files run.1 !! "/out/a.pdf" = Some (File new)).
Proof.
  intros msg run.
  apply (saver_keeps_what_exists slash_join permissive msg "/out"
           (Some ".pdf") true out_with_a run.1 run.2 "/out/a.pdf").
  - vm_compute. reflexivity.
  - reflexivity.
Defined.

Lemma nothing_accepted_nothing_done_witness :
  download_attachments slash_join permissive
    (message_with [attachment "b.docx" "B"; attachment "c.txt" "C"]) "/out"
    (Some ".pdf") false empty_out = (empty_out, Ok []).
Proof.
  apply (nothing_accepted_nothing_done slash_join permissive
           (message_with [attachment "b.docx" "B"; attachment "c.txt" "C"])
           "/out" (Some ".pdf") false empty_out).
  - reflexivity.
  - repeat constructor.
Defined.

Lemma returned_paths_in_order_witness :
  sublist ["/out/c.pdf"]
    (List.filter (ext_accepts (Some ".pdf"))
       (map (candidate slash_join "/out")
          (attachments (message_with [attachment "a.pdf" "new";
                                      attachment "b.txt" "B";
                                      attachment "c.pdf" "C"])))).
Proof.
  apply (returned_paths_in_order slash_join permissive
           (message_with [attachment "a.pdf" "new"; attachment "b.txt" "B";
                          attachment "c.pdf" "C"])
           "/out" (Some ".pdf") false out_with_a
           (download_attachments slash_join permissive
              (message_with [attachment "a.pdf" "new"; attachment "b.txt" "B";
                             attachment "c.pdf" "C"])
              "/out" (Some ".pdf") false out_with_a).1).
  vm_compute. reflexivity.
Defined.

Lemma returned_paths_when_overwriting_witness :
  ["/out/a.pdf"; "/out/c.pdf"] =
  List.filter (ext_accepts (Some ".pdf"))
    (map (candidate slash_join "/out")
       (attachments (message_with [attachment "a.pdf" "new";
                                   attachment "b.txt" "B";
                                   attachment "c.pdf" "C"]))).
Proof.
  apply (returned_paths_when_overwriting slash_join permissive
           (message_with [attachment "a.pdf" "new"; attachment "b.txt" "B";
                          attachment "c.pdf" "C"])
           "/out" (Some ".pdf") out_with_a
           (download_attachments slash_join permissive
              (message_with [attachment "a.pdf" "new"; attachment "b.txt" "B";
                             attachment "c.pdf" "C"])
              "/out" (Some ".pdf") true out_with_a).1).
  vm_compute. reflexivity.
Defined.

Lemma returned_paths_are_saved_witness :
  let msg := message_with [attachment "a.pdf" "first";
                           attachment "a.pdf" "second"] in
  let run := download_attachments slash_join permissive msg "/out"
               (Some ".pdf") true empty_out in
  ∃ a, a ∈ attachments msg ∧
       ext_accepts (Some ".pdf") (candidate slash_join "/out" a) = true ∧
       w_files run.1 !! "/out/a.pdf" = Some (File (content a)).
Proof.
  intros msg run.
  apply (returned_paths_are_saved slash_join permissive msg "/out"
           (Some ".pdf") true empty_out run.1 ["/out/a.pdf"; "/out/a.pdf"]).
  - vm_compute. reflexivity.
  - by left.
Defined.

Lemma second_run_saves_nothing_witness :
  let msg := message_with [attachment "a.pdf" "new"; attachment "c.pdf" "C"] in
  let first := download_attachments slash_join permissive msg "/out"
                 (Some ".pdf") true out_with_a in
  ∃ w2,
    download_attachments slash_join permissive msg "/out" (Some ".pdf") false
      first.1 = (w2, Ok []) ∧
    w_files w2 = w_files first.1.
Proof.
  intros msg first.
  apply (second_run_saves_nothing slash_join permissive msg "/out"
           (Some ".pdf") true out_with_a first.1 ["/out/a.pdf"; "/out/c.pdf"]).
  vm_compute. reflexivity.
Defined.

Lemma error_ends_the_call_witness :
  let run atts :=
    download_attachments slash_join permissive (message_with atts) "/out"
      (Some ".pdf") false out_with_device in
  run [attachment "a.pdf" "A"; attachment "con.pdf" "C";
       attachment "z.pdf" "Z"] =
  ((run [attachment "a.pdf" "A"; attachment "con.pdf" "C"]).1,
   Raise (FileNotFoundError
            "Error writing attachment data to file: /out/con.pdf")).
Proof.
  intros run.
  apply (error_ends_the_call slash_join permissive
           (message_with [attachment "a.pdf" "A"; attachment "con.pdf" "C"])
           (message_with [attachment "a.pdf" "A"; attachment "con.pdf" "C";
                          attachment "z.pdf" "Z"])
           [attachment "z.pdf" "Z"]).
  - reflexivity.
  - vm_compute. reflexivity.
Defined.

Lemma device_fails_the_check_witness :
  download_attachments slash_join permissive
    (message_with [attachment "con.pdf" "C"; attachment "a.pdf" "A"]) "/out"
    (Some ".pdf") false out_with_device =
  (log (EvOpenWrite "/out/con.pdf") out_with_device,
   Raise (FileNotFoundError
            "Error writing attachment data to file: /out/con.pdf")).
Proof.
  apply (device_fails_the_check slash_join permissive
           (message_with [attachment "con.pdf" "C"; attachment "a.pdf" "A"])
           (attachment "con.pdf" "C") [attachment "a.pdf" "A"] "/out"
           (Some ".pdf") false out_with_device); reflexivity.
Defined.

(** ** What the saver opens *)

Section SaverEvents.

Variable join : string → string → string.
Variable open_refused : gmap string node → string → option exn.

Lemma opened_print (text : string) (w : world) :
  opened (log (EvPrint text) w) = opened w.
Proof. unfold opened, log. simpl. by rewrite omap_app, app_nil_r. Qed.

Lemma opened_open (p : string) (w : world) :
  opened (log (EvOpenWrite p) w) = opened w ++ [p].
Proof. unfold opened, log. simpl. by rewrite omap_app. Qed.

(** One attachment opens nothing, or its candidate path, which then passes
    the filter and, without [overwrite], names no regular file. *)
Lemma save_attachment_opened (dst_folder : string) (ext : option string)
    (overwrite : bool) (file_paths : list string) (att : Attachment)
    (w w' : world) (r : result (list string)) :
  save_attachment join open_refused dst_folder ext overwrite file_paths att w
    = (w', r) →
  opened w' = opened w ∨
  (opened w' = opened w ++ [candidate join dst_folder att] ∧
   ext_accepts ext (candidate join dst_folder att) = true ∧
   (overwrite = false →
    isfile (w_files w) (candidate join dst_folder att) = false)).
Proof.
  unfold save_attachment, candidate.
  set (p := join dst_folder (name att)).
  destruct (ext_accepts ext p) eqn:Hext; simpl;
    [|intros [= <- <-]; by left].
  unfold mbind, M_bind, path_isfile, isfile, write_file, print. simpl.
  destruct (w_files w !! p) as [[old| |]|] eqn:Hp; simpl;
    [destruct overwrite; simpl;
       [|intros [= <- <-]; left; apply opened_print]| | |];
    (destruct (open_refused (w_files w) p); simpl;
     [|rewrite ?Hp; simpl; rewrite ?Hp, ?lookup_insert_eq; simpl]);
    intros [= <- <-]; right;
    (split; [|by split]);
    unfold opened, log; simpl; rewrite ?omap_app; simpl;
    by rewrite ?app_nil_r.
Qed.

Lemma save_loop_opened (dst_folder : string) (ext : option string)
    (atts : list Attachment) :
  ∀ file_paths w w' r p,
    save_loop join open_refused dst_folder ext false atts file_paths w
      = (w', r) →
    p ∈ opened w' →
    p ∈ opened w ∨
    (isfile (w_files w) p = false ∧ ext_accepts ext p = true ∧
     ∃ a, a ∈ atts ∧ p = candidate join dst_folder a).
Proof.
  induction atts as [|b atts IH]; intros file_paths w w' r p; simpl.
  - intros [= <- <-]. by left.
  - unfold mbind, M_bind.
    destruct (save_attachment _ _ _ _ _ _ _ _) as [w1 r1] eqn:Hstep.
    pose proof (save_attachment_opened _ _ _ _ _ _ _ _ Hstep) as Hopen.
    pose proof (save_attachment_cases join open_refused _ _ _ _ _ _ _ _ Hstep)
      as Hcases.
    intros Hrest Hp.
    assert (p ∈ opened w1 ∨
            (isfile (w_files w1) p = false ∧ ext_accepts ext p = true ∧
             ∃ a, a ∈ atts ∧ p = candidate join dst_folder a)) as Hin.
    { destruct r1 as [paths1|e].
      - by eapply IH.
      - injection Hrest as <- <-. by left. }
    destruct Hin as [Hin|(Hnot & Hext & a & Ha & Hcand)].
    + destruct Hopen as [Hsame|(Hnew & Hext & Hfree)].
      * left. by rewrite <- Hsame.
      * rewrite Hnew in Hin. apply elem_of_app in Hin as [Hin|Hin];
          [by left|].
        apply list_elem_of_singleton in Hin. subst p. right.
        split; [by apply Hfree|]. split; [done|].
        exists b. split; [by left|done].
    + right. split; [|split; [done|exists a; split; [by right|done]]].
      destruct (isfile (w_files w) p) eqn:Hw; [|done].
      assert (isfile (w_files w1) p = true) as Hw1; [|congruence].
      destruct Hcases as [(-> & _)|[(-> & _)|(-> & _)]]; [done| |done].
      unfold isfile in *.
      destruct (decide (join dst_folder (name b) = p)) as [->|Hne].
      * by rewrite lookup_insert_eq.
      * by rewrite lookup_insert_ne.
Qed.

(** A call without [overwrite] opens for writing only candidate paths of
    attachments of the message that pass the filter and name no regular
    file when the saver is called. *)
Lemma download_attachments_opened (msg : Message) (dst_folder : string)
    (ext : option string) (w w' : world) (r : result (list string))
    (p : string) :
  download_attachments join open_refused msg dst_folder ext false w
    = (w', r) →
  p ∈ opened w' →
  p ∈ opened w ∨
  (isfile (w_files w) p = false ∧ ext_accepts ext p = true ∧
   ∃ a, a ∈ attachments msg ∧ p = candidate join dst_folder a).
Proof.
  destruct (exists_ (w_files w) dst_folder) eqn:Hdst.
  - rewrite download_attachments_eq by done. apply save_loop_opened.
  - rewrite download_attachments_missing by done. intros [= <- <-]. by left.
Qed.

End SaverEvents.

(** * [get_account] and the script *)

Section AppFacts.

Variables Timezone DateTime EWSDateTime Folder : Type.
Variable from_datetime : DateTime → EWSDateTime.
Variable astimezone : EWSDateTime → Timezone → EWSDateTime.
Variable evaluate : scope Folder → query EWSDateTime → result (list Message).
Variable join : string → string → string.
Variable open_refused : gmap string node → string → option exn.
Variable account_init : account_args → result (Account Timezone Folder).
Variable datetime : nat → nat → nat → DateTime.

Abbreviation the_account environ files :=
  (get_account Timezone Folder join account_init environ files
     "EMEA-GSS-AR@ledvance.com" "lbs.robot@ledvance.com"
     "outlook.office365.com").

Abbreviation the_messages account now :=
  (fetch_messages Timezone DateTime EWSDateTime Folder from_datetime
     astimezone evaluate account "elab_apm_de@obi.de"
     (Some (datetime 2023 7 23)) false now).

Abbreviation the_script :=
  (main Timezone DateTime EWSDateTime Folder from_datetime astimezone evaluate
     join open_refused account_init datetime).

(** What reaches the constructor of the account: the mailbox as address,
    the credentials of [name] with its three strings and [name] itself as
    identity, the server, no autodiscovery, impersonation; the version and
    the authentication type of the first configuration do not come with
    it. *)
Theorem get_account_arguments (environ : gmap string string)
    (files : gmap string node) (mailbox name x_server : string)
    (acc : Account Timezone Folder) :
  get_account Timezone Folder join account_init environ files mailbox name
    x_server = Ok acc →
  ∃ a b t,
    _get_credentials join environ files name =
      Ok {| client_id := PStr a; client_secret := PStr b;
            tenant_id := PStr t; identity := PIdentity name |} ∧
    account_init
      {| arg_primary_smtp_address := mailbox;
         arg_config :=
           {| cfg_credentials :=
                {| client_id := PStr a; client_secret := PStr b;
                   tenant_id := PStr t; identity := PIdentity name |};
              cfg_server := x_server;
              cfg_auth_type := None; cfg_version := None |};
         arg_autodiscover := false;
         arg_access_type := IMPERSONATION |} = Ok acc.
Proof.
  unfold get_account.
  destruct (_get_credentials join environ files name) as [c|e] eqn:Hc;
    simpl; [|done].
  destruct (get_credentials_Ok join _ _ _ _ Hc)
    as (appdata & content & st & _ & _ & Hloop & Hverify).
  pose proof (credentials_loop_inv name _ _ _ (initial_inv name) Hloop) as Hinv.
  pose proof (verify_params_eq name st Hinv) as Hv.
  destruct (first_unset st.1); [congruence|].
  destruct Hv as (a & b & t & _ & _ & _ & Hv).
  rewrite Hv in Hverify. injection Hverify as <-. intros Hacc.
  by exists a, b, t.
Qed.

Lemma print_files (text : string) (w : world) :
  w_files (print text w).1 = w_files w ∧ (print text w).2 = Ok tt.
Proof. done. Qed.

(** One message of the loop: the files are those the saver leaves, called
    on the files as they were, and nothing is raised. *)
Lemma process_message_eq (n_total i : nat) (msg : Message) (w : world) :
  ∃ w1,
    w_files w1 = w_files w ∧
    w_files (process_message join open_refused n_total i msg w).1 =
    w_files (download_attachments join open_refused msg app_dst_folder
               (Some app_ext) false w1).1 ∧
    (process_message join open_refused n_total i msg w).2 = Ok tt.
Proof.
  unfold process_message, print_end.
  set (text := "Processig message " +:+ str_nat i +:+ " of " +:+
               str_nat n_total +:+ " ...").
  set (w1 := (print text w).1).
  exists w1. split; [done|].
  change (print text w) with (w1, Ok tt).
  cbv iota beta.
  destruct (download_attachments join open_refused msg app_dst_folder
              (Some app_ext) false w1) as [w2 [paths|e]]; simpl.
  - by destruct (negb (length paths =? 0)).
  - done.
Qed.

Lemma kept_or_created_step (msg : Message) (f0 : gmap string node)
    (w1 : world) (q : string) :
  kept_or_created join f0 (w_files w1) q →
  kept_or_created join f0
    (w_files (download_attachments join open_refused msg app_dst_folder
                (Some app_ext) false w1).1) q.
Proof.
  intros H01.
  destruct (download_attachments join open_refused msg app_dst_folder
              (Some app_ext) false w1) as [w2 r] eqn:Hd. simpl.
  pose proof (download_attachments_effect join open_refused _ _ _ _ _ _ _ q Hd)
    as [Hsame|[(a & _ & Hcand & Hext & Hnew) [Hnone|[? _]]]]; [| |done].
  - unfold kept_or_created in *. by rewrite Hsame.
  - destruct H01 as [H01|(_ & _ & b & _ & Hb)]; [|congruence].
    right. split; [congruence|].
    split; [by rewrite <- lower_case_extension_matches|].
    by exists a.
Qed.

Lemma process_messages_effect (n_total : nat) (messages : list Message)
    (f0 : gmap string node) (q : string) :
  ∀ i w,
    kept_or_created join f0 (w_files w) q →
    kept_or_created join f0
      (w_files (process_messages join open_refused n_total i messages w).1) q ∧
    (process_messages join open_refused n_total i messages w).2 = Ok tt.
Proof.
  induction messages as [|msg rest IH]; intros i w H0; simpl; [done|].
  unfold mbind, M_bind.
  destruct (process_message_eq n_total i msg w) as (w1 & Hw1 & Hfiles & Hok).
  destruct (process_message join open_refused n_total i msg w) as [w2 r2].
  simpl in *. subst r2. apply IH. rewrite Hfiles.
  apply kept_or_created_step. by rewrite Hw1.
Qed.

Lemma main_effect (environ : gmap string string) (now : DateTime)
    (w : world) (q : string) :
  kept_or_created join (w_files w) (w_files (the_script environ now w).1) q ∧
  (the_script environ now w).2 =
    match the_account environ (w_files w) with
    | Raise e => Raise e
    | Ok account =>
        match the_messages account now with
        | Raise e => Raise e
        | Ok _ => Ok 0
        end
    end.
Proof.
  unfold main, mbind, M_bind, lift, print, mret, M_ret. simpl.
  destruct (the_account environ (w_files w)) as [account|e]; simpl;
    [|split; [by left|done]].
  destruct (the_messages account now) as [messages|e]; simpl;
    [|split; [by left|done]].
  destruct (length messages =? 0); simpl; [split; [by left|done]|].
  destruct (process_messages_effect (length messages) messages (w_files w) q 1
              (log (EvPrint "Collecting messages...")
                 (log (EvPrint "Connecting to account...") w)))
    as [Hfiles Hok]; [by left|].
  destruct (process_messages _ _ _ _ _ _) as [w' r']. simpl in *.
  by subst r'.
Qed.

(** The script ends with status 0 whenever the account and the messages
    were obtained, whatever happens while the attachments are saved; the
    only errors that end it are those of [get_account] and of
    [fetch_messages]. *)
Theorem script_exit_status (environ : gmap string string) (now : DateTime)
    (w : world) :
  (the_script environ now w).2 =
    match the_account environ (w_files w) with
    | Raise e => Raise e
    | Ok account =>
        match the_messages account now with
        | Raise e => Raise e
        | Ok _ => Ok 0
        end
    end.
Proof. apply (main_effect environ now w EmptyString). Qed.

Lemma process_message_opened (n_total i : nat) (msg : Message) (w : world)
    (p : string) :
  p ∈ opened (process_message join open_refused n_total i msg w).1 →
  p ∈ opened w ∨
  (isfile (w_files w) p = false ∧ ext_accepts (Some app_ext) p = true ∧
   ∃ a, a ∈ attachments msg ∧ p = candidate join app_dst_folder a).
Proof.
  unfold process_message, print_end.
  set (text := "Processig message " +:+ str_nat i +:+ " of " +:+
               str_nat n_total +:+ " ...").
  change (print text w) with (log (EvPrint text) w, Ok tt).
  cbv iota beta.
  destruct (download_attachments join open_refused msg app_dst_folder
              (Some app_ext) false (log (EvPrint text) w))
    as [w2 r] eqn:Hd.
  intros Hp.
  assert (p ∈ opened w2) as Hp2.
  { destruct r as [paths|e]; simpl in Hp.
    - destruct (negb (length paths =? 0)); [|done].
      unfold print in Hp. simpl in Hp. by rewrite opened_print in Hp.
    - unfold print in Hp. simpl in Hp. by rewrite opened_print in Hp. }
  destruct (download_attachments_opened join open_refused _ _ _ _ _ _ p
              Hd Hp2) as [Hold|Hnew].
  - left. by rewrite opened_print in Hold.
  - by right.
Qed.

Lemma process_messages_opened (n_total : nat) (messages : list Message)
    (p : string) :
  ∀ i w,
    p ∈ opened (process_messages join open_refused n_total i messages w).1 →
    p ∈ opened w ∨
    (isfile (w_files w) p = false ∧ ext_accepts (Some app_ext) p = true ∧
     ∃ msg a, msg ∈ messages ∧ a ∈ attachments msg ∧
              p = candidate join app_dst_folder a).
Proof.
  induction messages as [|msg rest IH]; intros i w; simpl; [by left|].
  unfold mbind, M_bind.
  destruct (process_message_eq n_total i msg w) as (w1 & Hw1 & Hfiles & Hok).
  pose proof (process_message_opened n_total i msg w p) as Hone.
  assert (kept_or_created join (w_files w)
            (w_files (process_message join open_refused n_total i msg w).1) p)
    as Hkept.
  { rewrite Hfiles. apply kept_or_created_step. left. by rewrite Hw1. }
  destruct (process_message join open_refused n_total i msg w) as [w2 r2].
  simpl in *. subst r2. intros Hp.
  destruct (IH _ _ Hp) as [Hin|(Hnot & Hext & m & a & Hm & Ha & Hcand)].
  - destruct (Hone Hin) as [Hold|(Hnot & Hext & a & Ha & Hcand)]; [by left|].
    right. split; [done|]. split; [done|].
    exists msg, a. split; [by left|done].
  - right. split; [|split; [done|]].
    + destruct (isfile (w_files w) p) eqn:Hw; [|done].
      unfold isfile in *.
      destruct Hkept as [Hsame|(Hnone & _)].
      * by rewrite Hsame, Hw in Hnot.
      * by rewrite Hnone in Hw.
    + exists m, a. split; [by right|done].
Qed.

(** What the script opens for writing: only candidate paths, in its
    folder, of attachments of the messages it was given, that end in
    [.pdf] when case is ignored and named no regular file when the script
    started. *)
Theorem script_opens_only_new_pdf (environ : gmap string string)
    (now : DateTime) (w : world) (account : Account Timezone Folder)
    (messages : list Message) (p : string) :
  the_account environ (w_files w) = Ok account →
  the_messages account now = Ok messages →
  p ∈ opened (the_script environ now w).1 →
  p ∈ opened w ∨
  (isfile (w_files w) p = false ∧
   matches_ignoring_case ".pdf" p = true ∧
   ∃ msg a, msg ∈ messages ∧ a ∈ attachments msg ∧
            p = join app_dst_folder (name a)).
Proof.
  intros Hacc Hmsgs.
  unfold main, mbind, M_bind, lift, print, mret, M_ret. simpl.
  rewrite Hacc. simpl. rewrite Hmsgs. simpl.
  set (w2 := log (EvPrint "Collecting messages...")
               (log (EvPrint "Connecting to account...") w)).
  assert (opened w2 = opened w) as Hopened
    by (unfold w2; by rewrite !opened_print).
  destruct (length messages =? 0); simpl.
  - rewrite opened_print, Hopened. by left.
  - pose proof (process_messages_opened (length messages) messages p 1 w2)
      as Hloop.
    destruct (process_messages _ _ _ _ _ _) as [w' [[]|e]]; simpl in *;
      intros Hp; rewrite Hopened in Hloop;
      (destruct (Hloop Hp) as [Hold|(Hnot & Hext & Hfrom)]; [by left|]);
      right; (split; [done|]);
      (split; [by rewrite <- lower_case_extension_matches|done]).
Qed.

(** The script never changes what is already on the disk: whatever a path
    names before the run, a file, a directory or anything else, it names
    the same after it. *)
Theorem script_keeps_what_exists (environ : gmap string string)
    (now : DateTime) (w : world) (q : string) :
  exists_ (w_files w) q = true →
  w_files (the_script environ now w).1 !! q = w_files w !! q.
Proof.
  unfold exists_. intros Hq.
  destruct (main_effect environ now w q) as [[Hsame|(Hnone & _)] _]; [done|].
  by rewrite Hnone in Hq.
Qed.

Lemma process_messages_missing (n_total : nat) (messages : list Message) :
  ∀ i w,
    exists_ (w_files w) app_dst_folder = false →
    w_files (process_messages join open_refused n_total i messages w).1 =
    w_files w.
Proof.
  induction messages as [|msg rest IH]; intros i w Hdst; simpl; [done|].
  unfold mbind, M_bind.
  destruct (process_message_eq n_total i msg w) as (w1 & Hw1 & Hfiles & Hok).
  rewrite download_attachments_missing in Hfiles by (by rewrite Hw1).
  destruct (process_message join open_refused n_total i msg w) as [w2 r2].
  simpl in *. subst r2. rewrite IH; congruence.
Qed.


End AppFacts.

(** ** The script on examples *)

Lemma get_account_arguments_witness :
  ∃ a b t,
    _get_credentials slash_join test_environ app_files
      "lbs.robot@ledvance.com" =
      Ok {| client_id := PStr a; client_secret := PStr b;
            tenant_id := PStr t;
            identity := PIdentity "lbs.robot@ledvance.com" |} ∧
    test_account_init
      {| arg_primary_smtp_address := "EMEA-GSS-AR@ledvance.com";
         arg_config :=
           {| cfg_credentials :=
                {| client_id := PStr a; client_secret := PStr b;
                   tenant_id := PStr t;
                   identity := PIdentity "lbs.robot@ledvance.com" |};
              cfg_server := "outlook.office365.com";
              cfg_auth_type := None; cfg_version := None |};
         arg_autodiscover := false;
         arg_access_type := IMPERSONATION |} = Ok test_account.
Proof.
  apply (get_account_arguments unit unit slash_join test_account_init
           test_environ app_files "EMEA-GSS-AR@ledvance.com"
           "lbs.robot@ledvance.com" "outlook.office365.com" test_account).
  vm_compute. reflexivity.
Defined.

Lemma script_keeps_what_exists_witness :
  let messages := [message_with [attachment "old.pdf" "new";
                                 attachment "b.PDF" "B"]] in
  w_files (test_main messages app_world).1
    !! slash_join app_dst_folder "old.pdf" =
  w_files app_world !! slash_join app_dst_folder "old.pdf".
Proof.
  intros messages.
  apply (script_keeps_what_exists unit unit unit unit (λ _, tt) (λ _ _, tt)
           (test_server messages) slash_join permissive test_account_init
           (λ _ _ _, tt) test_environ tt app_world).
  reflexivity.
Defined.


Lemma script_opens_only_new_pdf_witness :
  let messages := [message_with [attachment "old.pdf" "new";
                                 attachment "b.PDF" "B"]] in
  let p := slash_join app_dst_folder "b.PDF" in
  p ∈ opened app_world ∨
  (isfile (w_files app_world) p = false ∧
   matches_ignoring_case ".pdf" p = true ∧
   ∃ msg a, msg ∈ messages ∧ a ∈ attachments msg ∧
            p = slash_join app_dst_folder (name a)).
Proof.
  intros messages p.
  apply (script_opens_only_new_pdf unit unit unit unit (λ _, tt) (λ _ _, tt)
           (test_server messages) slash_join permissive test_account_init
           (λ _ _ _, tt) test_environ tt app_world test_account messages p).
  - vm_compute. reflexivity.
  - reflexivity.
  - assert (opened (test_main messages app_world).1 = [p]) as H
      by (vm_compute; reflexivity).
    unfold test_main in H. rewrite H. by left.
Defined.

(** The script on the machine of the examples: the file that was there is
    kept, the new one is written, and the status is 0. *)
Example script_run :
  let messages := [message_with [attachment "old.pdf" "new";
                                 attachment "b.PDF" "B"]] in
  let run := test_main messages app_world in
  run.2 = Ok 0 ∧
  w_files run.1 !! slash_join app_dst_folder "old.pdf"
    = Some (File (bytes_of "old")) ∧
  w_files run.1 !! slash_join app_dst_folder "b.PDF"
    = Some (File (bytes_of "B")) ∧
  w_events run.1 =
    [EvPrint "Connecting to account...";
     EvPrint "Collecting messages...";
     EvPrint "Processig message 1 of 1 ...";
     EvPrint "WARNING: File already exists. Attachment won't be saved.";
     EvOpenWrite (slash_join app_dst_folder "b.PDF");
     EvPrint ("Attachment(s) saved to: " +:+
              slash_join app_dst_folder "b.PDF")].
Proof. repeat split; vm_compute; reflexivity. Qed.
